(** * Chroma demo client: configuration, seeding, scoring and reporting

    A shallow embedding of [chromadb-docker-demo/client/main.py].

    Python [str] values are sequences of Unicode code points and are
    modelled as [list N].  Dictionaries are [gmap]s, sets are [gset]s and
    the text printed on standard output is a list of lines.  Code that can
    raise returns a [result]; code that prints or reads the [results]
    dictionary runs in the monad [M] over a [world].

    Two built-ins depend on the whole Unicode database and are parameters
    of the definitions that call them: [str.lower] (sections [Scorer] and
    [Evaluator]) and [int] on a string (section [Runner]).  The general
    theorems hold for every such function; [lower_latin1] and [int_ascii]
    are the instances used where a concrete input is evaluated.  The
    process environment [os.environ] and the content of the [.env] file
    are arguments. *)

From Stdlib Require Import ZArith NArith Lia Ascii String DecimalString.
From stdpp Require Import gmap list strings sorting.

Local Open Scope N_scope.

(** ** Python strings *)

Abbreviation str := (list N).

(** Decoding of the UTF-8 bytes of a source literal into code points; a
    malformed sequence decodes to U+FFFD. *)
Fixpoint utf8_decode (bs : list N) : str :=
  match bs with
  | [] => []
  | b0 :: r0 =>
    if b0 <? 0x80 then b0 :: utf8_decode r0
    else if b0 <? 0xC0 then 0xFFFD :: utf8_decode r0
    else if b0 <? 0xE0 then
      match r0 with
      | b1 :: r1 =>
        N.lor (N.shiftl (N.land b0 0x1F) 6) (N.land b1 0x3F) :: utf8_decode r1
      | _ => [0xFFFD]
      end
    else if b0 <? 0xF0 then
      match r0 with
      | b1 :: b2 :: r2 =>
        N.lor (N.shiftl (N.land b0 0x0F) 12)
          (N.lor (N.shiftl (N.land b1 0x3F) 6) (N.land b2 0x3F))
        :: utf8_decode r2
      | _ => [0xFFFD]
      end
    else
      match r0 with
      | b1 :: b2 :: b3 :: r3 =>
        N.lor (N.shiftl (N.land b0 0x07) 18)
          (N.lor (N.shiftl (N.land b1 0x3F) 12)
             (N.lor (N.shiftl (N.land b2 0x3F) 6) (N.land b3 0x3F)))
        :: utf8_decode r3
      | _ => [0xFFFD]
      end
  end.

(** [u "..."] is the Python string written by that literal. *)
Definition u (s : string) : str :=
  utf8_decode (N_of_ascii <$> list_ascii_of_string s).

(** [s.startswith(p)] *)
Fixpoint startswith (s p : str) : bool :=
  match p, s with
  | [], _ => true
  | _ :: _, [] => false
  | a :: p', b :: s' => (a =? b) && startswith s' p'
  end.

(** [sub in s] *)
Fixpoint contains (s sub : str) : bool :=
  startswith s sub ||
  match s with
  | [] => false
  | _ :: s' => contains s' sub
  end.

(** [str.lower] on the code points below U+0100, where it acts on each
    character separately: A-Z and the capital letters U+00C0..U+00DE
    (except the multiplication sign U+00D7) move up by 32.  Code points
    from U+0100 on are left as they are; the definitions below that
    lower-case a string take the lowering function as a parameter, and
    this one is used where a concrete text is evaluated. *)
Definition lower_cp (c : N) : N :=
  if (65 <=? c) && (c <=? 90) ||
     (192 <=? c) && (c <=? 222) && negb (c =? 215)
  then c + 32 else c.

Definition lower_latin1 (s : str) : str := lower_cp <$> s.

(** [str(n)] for an integer. *)
Definition str_of_Z (n : Z) : str :=
  u (NilEmpty.string_of_int (Z.to_int n)).

Local Open Scope Z_scope.

(** [sum(...)] over a sequence of integers. *)
Definition py_sum (l : list Z) : Z := foldl Z.add 0 l.

(** ** Relevance scorer *)

Section Scorer.
(** [str.lower] *)
Variable lower : str → str.

Definition keyword_relevance (text : str) (keywords : list str) : Z :=
  let text_lower := lower text in
  let hits :=
    py_sum ((λ _, 1) <$> filter (λ kw, contains text_lower kw = true) keywords) in
  if hits =? 0 then 0
  else if hits =? 1 then 3
  else if hits =? 2 then 4
  else 5.

(** The keywords of a set that occur in the lower-cased text. *)
Definition matching_keywords (text : str) (keywords : gset str) : gset str :=
  filter (λ kw, contains (lower text) kw = true) keywords.
End Scorer.

(** ** Exceptions and effects *)

Inductive exn := ValueError | IndexError.

Inductive result (A : Type) :=
  | Ok (a : A)
  | Raise (e : exn).
Arguments Ok {A} a.
Arguments Raise {A} e.

Global Instance result_ret : MRet result := λ A a, Ok a.
Global Instance result_bind : MBind result := λ A B f r,
  match r with
  | Ok a => f a
  | Raise e => Raise e
  end.

(** ** Config resolver *)

(** [str.isspace] for one character. *)
Definition isspace (c : N) : bool :=
  ((9 <=? c) && (c <=? 13) || (28 <=? c) && (c <=? 32) ||
   (c =? 0x85) || (c =? 0xA0) || (c =? 0x1680) ||
   (0x2000 <=? c) && (c <=? 0x200A) ||
   (c =? 0x2028) || (c =? 0x2029) || (c =? 0x202F) || (c =? 0x205F) ||
   (c =? 0x3000))%N.

Fixpoint lstrip (s : str) : str :=
  match s with
  | [] => []
  | c :: s' => if isspace c then lstrip s' else s
  end.

Definition rstrip (s : str) : str := reverse (lstrip (reverse s)).

(** [s.strip()] *)
Definition strip (s : str) : str := rstrip (lstrip s).

(** The line boundaries of [str.splitlines]. *)
Definition is_linebreak (c : N) : bool :=
  ((10 <=? c) && (c <=? 13) || (28 <=? c) && (c <=? 30) ||
   (c =? 0x85) || (c =? 0x2028) || (c =? 0x2029))%N.

(** [cur] holds the characters of the line being read, last one first. *)
Fixpoint splitlines_from (cur s : str) : list str :=
  match s with
  | [] => match cur with [] => [] | _ => [reverse cur] end
  | c :: s' =>
    if is_linebreak c then
      reverse cur ::
      match s' with
      | c' :: s'' =>
        if ((c =? 13) && (c' =? 10))%N then splitlines_from [] s''
        else splitlines_from [] s'
      | [] => splitlines_from [] s'
      end
    else splitlines_from (c :: cur) s'
  end.

(** [s.splitlines()] *)
Definition splitlines (s : str) : list str := splitlines_from [] s.

Fixpoint split_first_from (sep acc s : str) : list str :=
  if startswith s sep then [reverse acc; drop (length sep) s]
  else match s with
       | [] => [reverse acc]
       | c :: s' => split_first_from sep (c :: acc) s'
       end.

(** [s.split(sep, 1)]; an empty separator is a [ValueError]. *)
Definition split_max1 (s sep : str) : result (list str) :=
  match sep with
  | [] => Raise ValueError
  | _ => Ok (split_first_from sep [] s)
  end.

(** One iteration of the loop of [load_env_file]. *)
Definition load_env_line (env_values : gmap str str) (line : str)
    : result (gmap str str) :=
  let stripped := strip line in
  if bool_decide (stripped = []) || startswith stripped (u "#") then
    Ok env_values
  else if negb (contains stripped (u "=")) then
    Ok env_values
  else
    parts ← split_max1 stripped (u "=");
    match parts with
    | [key; value] => Ok (<[strip key := strip value]> env_values)
    | _ => Raise ValueError
    end.

Fixpoint load_env_lines (env_values : gmap str str) (lines : list str)
    : result (gmap str str) :=
  match lines with
  | [] => Ok env_values
  | line :: lines' =>
    env_values' ← load_env_line env_values line;
    load_env_lines env_values' lines'
  end.

(** [file] is the decoded text of the file at [env_path], [None] when
    the path does not exist. *)
Definition load_env_file (file : option str) : result (gmap str str) :=
  match file with
  | None => Ok ∅
  | Some content => load_env_lines ∅ (splitlines content)
  end.

(** [a or b] where [a] is a string or [None]. *)
Definition or_else (a : option str) (b : str) : str :=
  match a with
  | Some (c :: s) => c :: s
  | _ => b
  end.

(** [environ] is [os.environ]. *)
Definition resolve_setting (environ : gmap str str)
    (env_key fallback : str) (env_file_values : gmap str str) : str :=
  or_else (environ !! env_key) (default fallback (env_file_values !! env_key)).

(** ** Standard output and the query response *)

(** A metadata value that is not a dictionary. *)
Inductive pyval :=
  | PyNone
  | PyInt (n : Z)
  | PyStr (s : str).

(** The metadata of a returned document: a dictionary from strings to
    strings, or some other value. *)
Inductive metadata :=
  | MdDict (d : gmap str str)
  | MdOther (v : pyval).

(** The dictionary returned by [collection.query]; a field is [None]
    when its key is absent. *)
Record response := Response {
  r_ids : option (list (list str));
  r_documents : option (list (list str));
  r_metadatas : option (list (list metadata));
}.

(** What a call can change: the lines printed so far and the dictionary
    that the [results] argument of [evaluate_results] refers to. *)
Record world := World {
  stdout : list str;
  results_dict : response;
}.

Definition M (A : Type) : Type := world → world * result A.

Global Instance M_ret : MRet M := λ A a w, (w, Ok a).
Global Instance M_bind : MBind M := λ A B f m w,
  match m w with
  | (w', Ok a) => f a w'
  | (w', Raise e) => (w', Raise e)
  end.

Definition raise {A} (e : exn) : M A := λ w, (w, Raise e).

(** [print(line)] *)
Definition print (line : str) : M unit := λ w,
  (World (stdout w ++ [line]) (results_dict w), Ok ()).

(** [results.get(key, [[]])], for the key that [field] stands for. *)
Definition results_get {A} (field : response → option (list (list A)))
    : M (list (list A)) := λ w,
  (w, Ok (default [[]] (field (results_dict w)))).

(** [l[0]] *)
Definition item0 {A} (l : list A) : M A :=
  match l with
  | x :: _ => mret x
  | [] => raise IndexError
  end.

Fixpoint for_each {A} (l : list A) (body : A → M unit) : M unit :=
  match l with
  | [] => mret ()
  | x :: l' => body x;; for_each l' body
  end.

(** [enumerate(l, start)] *)
Fixpoint enumerate {A} (start : Z) (l : list A) : list (Z * A) :=
  match l with
  | [] => []
  | x :: l' => (start, x) :: enumerate (start + 1) l'
  end.

(** [zip(a, b, c)] *)
Definition zip3 {A B C} (a : list A) (b : list B) (c : list C)
    : list (A * B * C) :=
  zip (zip a b) c.

(** [sep.join(l)] *)
Fixpoint join (sep : str) (l : list str) : str :=
  match l with
  | [] => []
  | [x] => x
  | x :: l' => x ++ sep ++ join sep l'
  end.

(** [s <= t] on strings: by code point, then by length. *)
Fixpoint str_leb (s t : str) : bool :=
  match s, t with
  | [], _ => true
  | _ :: _, [] => false
  | a :: s', b :: t' =>
    if (a <? b)%N then true
    else if (a =? b)%N then str_leb s' t'
    else false
  end.

Definition str_le (s t : str) : Prop := str_leb s t = true.

Global Instance str_le_dec : RelDecision str_le :=
  λ s t, bool_eq_dec (str_leb s t) true.

(** [sorted(l)] for a list of strings. *)
Definition sorted (l : list str) : list str := merge_sort str_le l.

(** [f"{v}"] *)
Definition format (v : pyval) : str :=
  match v with
  | PyNone => u "None"
  | PyInt n => str_of_Z n
  | PyStr s => s
  end.

(** A string or [None] that counts as true. *)
Definition truthy (t : option str) : option str :=
  match t with
  | Some (c :: s) => Some (c :: s)
  | _ => None
  end.

(** ** Collection seeder *)

(** The arguments of one [collection.upsert] call. *)
Record upsert_call := Upsert {
  ids : list str;
  documents : list str;
  metadatas : list (gmap str str);
}.

Definition seed_documents : list (str * str * gmap str str) :=
  [ (u "historia-01",
     u "La caída del Imperio Romano marcó el inicio de la Edad Media y transformó la política europea.",
     {[ u "tema" := u "historia" ]});
    (u "ia-01",
     u "Los transformers revolucionaron el NLP al permitir el aprendizaje de dependencias largas en textos.",
     {[ u "tema" := u "ia" ]});
    (u "ecologia-01",
     u "La deforestación afecta la biodiversidad y aumenta las emisiones de gases de efecto invernadero.",
     {[ u "tema" := u "ecologia" ]});
    (u "deporte-01",
     u "El entrenamiento de resistencia mejora la capacidad aeróbica y la salud cardiovascular de los atletas.",
     {[ u "tema" := u "deporte" ]});
    (u "economia-01",
     u "La inflación y la política monetaria están estrechamente relacionadas con las expectativas del mercado.",
     {[ u "tema" := u "economia" ]});
    (u "medicina-01",
     u "Las vacunas de ARNm activan respuestas inmunológicas específicas con tiempos de desarrollo reducidos.",
     {[ u "tema" := u "medicina" ]});
    (u "tecnologia-01",
     u "La computación en la nube facilita la escalabilidad de aplicaciones y la gestión de datos distribuidos.",
     {[ u "tema" := u "tecnologia" ]});
    (u "musica-01",
     u "El jazz de los años 50 exploró la improvisación modal e influyó en generaciones posteriores de músicos.",
     {[ u "tema" := u "musica" ]});
    (u "literatura-01",
     u "El realismo mágico en América Latina mezcló elementos fantásticos con narrativas cotidianas.",
     {[ u "tema" := u "literatura" ]});
    (u "ciencia-01",
     u "El método científico combina observación, hipótesis, experimentación y análisis para validar teorías.",
     {[ u "tema" := u "ciencia" ]}) ].

(** The [collection.upsert] call that [ensure_documents] makes. *)
Definition ensure_documents : upsert_call :=
  let documents := seed_documents in
  Upsert ((λ '(doc_id, _, _), doc_id) <$> documents)
         ((λ '(_, text, _), text) <$> documents)
         ((λ '(_, _, metadata), metadata) <$> documents).

(** ** Result evaluator *)

Definition DEFAULT_HOST : str := u "localhost".
Definition DEFAULT_PORT : Z := 8000.

Definition newline : str := [10%N].

(** The two notes that close a report. *)
Definition note_exact_keyword_match : str :=
  u "Notas: Los resultados contienen coincidencias claras con las palabras clave.".
Definition note_semantic_only : str :=
  u "Notas: Las coincidencias dependen de la similitud semántica, no hay palabras clave exactas.".

(** The topic shown for a ranked entry. *)
Definition topic_of (metadata : metadata) : pyval :=
  match metadata with
  | MdDict d => PyStr (default (u "desconocido") (d !! u "tema"))
  | MdOther v => v
  end.

(** [{md.get("tema") for md in metadatas if isinstance(md, dict)}] *)
Definition coverage_topics (metadatas : list metadata) : gset (option str) :=
  list_to_set
    (omap (λ md, match md with
                 | MdDict d => Some (d !! u "tema")
                 | MdOther _ => None
                 end) metadatas).

(** The text after [Cobertura temática: ]. *)
Definition coverage_text (metadatas : list metadata) : str :=
  match join (u ", ") (sorted (omap truthy (elements (coverage_topics metadatas)))) with
  | [] => u "sin datos"
  | c :: s => c :: s
  end.

Section Evaluator.
(** [str.lower] *)
Variable lower : str → str.

(** [any(kw in doc.lower() for kw in keywords)] *)
Definition any_keyword_in (doc : str) (keywords : gset str) : bool :=
  existsb (λ kw, contains (lower doc) kw) (elements keywords).

(** The body of the loop over the ranked entries. *)
Definition print_entry (keywords : gset str)
    (entry : Z * (str * str * metadata)) : M unit :=
  let '(idx, (doc_id, doc_text, metadata)) := entry in
  let score := keyword_relevance lower doc_text (elements keywords) in
  let topic := topic_of metadata in
  print (u "#" ++ str_of_Z idx ++ u " -> ID: " ++ doc_id);;
  print (u "       Tema: " ++ format topic);;
  print (u "       Texto: " ++ doc_text);;
  print (u "       Relevancia aparente (0-5): " ++ str_of_Z score).

(** The dictionary that [results] refers to is [results_dict] of the
    world the call runs in. *)
Definition evaluate_results (query : str) (keywords : gset str) : M unit :=
  ids ← results_get r_ids ≫= item0;
  documents ← results_get r_documents ≫= item0;
  metadatas ← results_get r_metadatas ≫= item0;
  print (newline ++ u "==============================");;
  print (u "Consulta: " ++ query);;
  print (u "Resultados (top 3):");;
  for_each (enumerate 1 (zip3 ids documents metadatas)) (print_entry keywords);;
  print (u "Cobertura temática: " ++ coverage_text metadatas);;
  let related_hits :=
    filter (λ doc, any_keyword_in doc keywords = true) documents in
  match related_hits with
  | _ :: _ => print note_exact_keyword_match
  | [] => print note_semantic_only
  end.
End Evaluator.

(** ** Query runner: configuration *)

(** The fixed queries of [run], each with its keyword set. *)
Definition queries : list (str * gset str) :=
  [ (u "¿Cómo reducir el impacto ambiental de una ciudad?",
     {[ u "ambiental"; u "deforestación"; u "emisiones"; u "biodiversidad" ]});
    (u "¿Qué avances recientes mejoraron el procesamiento del lenguaje natural?",
     {[ u "nlp"; u "transformers"; u "lenguaje"; u "ia" ]});
    (u "¿Qué factores explican el aumento de los precios?",
     {[ u "inflación"; u "precios"; u "monetaria"; u "economía" ]}) ].

Section Runner.
(** [int(s)] for a string; [None] is a [ValueError]. *)
Variable int : str → option Z.

(** The first statements of [run], up to the arguments with which it
    calls [build_client]: the host and the port. *)
Definition run_config (environ : gmap str str) (env_file : option str)
    : M (str * Z) := λ w,
  match load_env_file env_file with
  | Raise e => (w, Raise e)
  | Ok env_file_values =>
    let host := resolve_setting environ (u "CHROMA_HOST") DEFAULT_HOST env_file_values in
    let port_str :=
      resolve_setting environ (u "CHROMA_PORT") (str_of_Z DEFAULT_PORT) env_file_values in
    (match int port_str with
     | Some port => mret (host, port)
     | None =>
       print (u "Puerto inválido en CHROMA_PORT: " ++ port_str ++
              u ". Usando " ++ str_of_Z DEFAULT_PORT ++ u ".");;
       mret (host, DEFAULT_PORT)
     end) w
  end.
End Runner.

(** [int(s)] on ASCII text: optional surrounding white space, an optional
    sign, then decimal digits in which single underscores may separate
    digits. *)
Fixpoint int_digits (acc : Z) (after_digit : bool) (s : str) : option Z :=
  match s with
  | [] => if after_digit then Some acc else None
  | c :: s' =>
    if ((48 <=? c) && (c <=? 57))%N then
      int_digits (10 * acc + (Z.of_N c - 48)) true s'
    else if (c =? 95)%N && after_digit then int_digits acc false s'
    else None
  end.

Definition int_ascii (s : str) : option Z :=
  match strip s with
  | 43%N :: ds => int_digits 0 false ds
  | 45%N :: ds => Z.opp <$> int_digits 0 false ds
  | ds => int_digits 0 false ds
  end.

(** ** The report as a value

    The lines that a call of [evaluate_results] prints, as functions of
    the ranked lists; the lemmas below relate them to the calls. *)

(** The ranked list under a key of the response: element 0 of the value,
    or of [[[]]] when the key is absent. *)
Definition ranked {A} (field : option (list (list A))) : option (list A) :=
  head (default [[]] field).

Definition header_lines (query : str) : list str :=
  [ newline ++ u "=============================="; u "Consulta: " ++ query;
    u "Resultados (top 3):" ].

Definition entry_lines (lower : str → str) (keywords : gset str)
    (entry : Z * (str * str * metadata)) : list str :=
  let '(idx, (doc_id, doc_text, metadata)) := entry in
  [ u "#" ++ str_of_Z idx ++ u " -> ID: " ++ doc_id;
    u "       Tema: " ++ format (topic_of metadata);
    u "       Texto: " ++ doc_text;
    u "       Relevancia aparente (0-5): " ++
      str_of_Z (keyword_relevance lower doc_text (elements keywords)) ].

Definition note_line (lower : str → str) (keywords : gset str)
    (documents : list str) : str :=
  if existsb (λ doc, any_keyword_in lower doc keywords) documents
  then note_exact_keyword_match else note_semantic_only.

Definition report_lines (lower : str → str) (query : str) (keywords : gset str)
    (ids documents : list str) (metadatas : list metadata) : list str :=
  header_lines query ++
  flat_map (entry_lines lower keywords) (enumerate 1 (zip3 ids documents metadatas)) ++
  [ u "Cobertura temática: " ++ coverage_text metadatas;
    note_line lower keywords documents ].

(** The names under which the specification mentions the literals of the
    code. *)
Definition topic_key : str := u "tema".
Definition placeholder_unknown : str := u "desconocido".
Definition placeholder_no_data : str := u "sin datos".

(** The ecology document of the seed corpus and the keywords of the first
    query. *)
Definition ecology_text : str :=
  u "La deforestación afecta la biodiversidad y aumenta las emisiones de gases de efecto invernadero.".
Definition ecology_keywords : gset str :=
  {[ u "ambiental"; u "deforestación"; u "emisiones"; u "biodiversidad" ]}.

(** ** The configuration file as the specification describes it *)

(** The part before and the part after the first [c] of [s]. *)
Fixpoint break_at (c : N) (s : str) : option (str * str) :=
  match s with
  | [] => None
  | a :: s' =>
    if (a =? c)%N then Some ([], s')
    else '(k, v) ← break_at c s'; Some (a :: k, v)
  end.

(** The entry of one line: none for a line that is blank or a comment
    once trimmed, or that has no [=]; otherwise the trimmed text before
    the first [=] as key and the trimmed text after it as value. *)
Definition spec_line_entry (line : str) : option (str * str) :=
  let trimmed := strip line in
  if bool_decide (trimmed = [] ∨ head trimmed = Some 35%N) then None
  else '(key, value) ← break_at 61 trimmed; Some (strip key, strip value).

Definition spec_add_line (values : gmap str str) (line : str) : gmap str str :=
  match spec_line_entry line with
  | Some (key, value) => <[key := value]> values
  | None => values
  end.

Definition spec_env_file (content : str) : gmap str str :=
  foldl spec_add_line ∅ (splitlines content).

(** [sorted(t for t in coverage_topics if t)]: the topics that the
    coverage line lists. *)
Definition covered_topics (metadatas : list metadata) : list str :=
  sorted (omap truthy (elements (coverage_topics metadatas))).

(** ** Writing a configuration file *)

(** A string without white space at either end. *)
Definition trimmed (s : str) : Prop :=
  (∀ c, head s = Some c → isspace c = false) ∧
  (∀ c, last s = Some c → isspace c = false).

(** A key and a value that a line [key=value] can carry: both trimmed
    and on one line, the key without [=] and not starting a comment. *)
Definition writable (k v : str) : Prop :=
  trimmed k ∧ trimmed v ∧ (61%N ∉ k) ∧ (head k ≠ Some 35%N) ∧
  (∀ c, c ∈ k ++ v → is_linebreak c = false).

(** The text of a file with one line [key=value] for each pair. *)
Definition render_env (pairs : list (str * str)) : str :=
  join newline ((λ '(k, v), k ++ u "=" ++ v) <$> pairs).

(** ** Query runner: the whole run *)

Definition DEFAULT_COLLECTION_NAME : str := u "articulos".

(** The calls that a run makes to the store library. *)
Inductive store_call :=
  | HttpClient (host : str) (port : Z) (allow_reset anonymized_telemetry : bool)
  | ClientReset
  | GetOrCreateCollection (name : str)
  | CollectionUpsert (batch : upsert_call)
  | CollectionQuery (query_texts : list str) (n_results : Z).

(** What ends a run early: an exception of the client's own code, or an
    exception raised inside a call to the store, with its message. *)
Inductive failure :=
  | ClientError (e : exn)
  | StoreError (message : str).

Inductive outcome (A : Type) :=
  | Done (a : A)
  | Failed (f : failure).
Arguments Done {A} a.
Arguments Failed {A} f.

(** The state of a run: the world of the printing code and the calls made
    to the store so far, the first one first. *)
Record run_state := RunState {
  rs_world : world;
  rs_calls : list store_call;
}.

Definition R (A : Type) : Type := run_state → run_state * outcome A.

Global Instance R_ret : MRet R := λ A a s, (s, Done a).
Global Instance R_bind : MBind R := λ A B f m s,
  match m s with
  | (s', Done a) => f a s'
  | (s', Failed e) => (s', Failed e)
  end.

(** A computation of the printing code inside a run. *)
Definition run_M {A} (m : M A) : R A := λ s,
  match m (rs_world s) with
  | (w', Ok a) => (RunState w' (rs_calls s), Done a)
  | (w', Raise e) => (RunState w' (rs_calls s), Failed (ClientError e))
  end.

(** A call of [m] with [response] as the dictionary that its [results]
    argument refers to. *)
Definition with_results {A} (response : response) (m : M A) : R A := λ s,
  run_M m (RunState (World (stdout (rs_world s)) response) (rs_calls s)).

Fixpoint for_each_R {A} (l : list A) (body : A → R unit) : R unit :=
  match l with
  | [] => mret ()
  | x :: l' => body x;; for_each_R l' body
  end.

Section Run.
(** [str.lower] and [int] on a string. *)
Variable lower : str → str.
Variable int : str → option Z.

(** The store: given the calls made before, whether a call raises (and
    then with which message), and what a query that returns gives. *)
Variable store_raises : list store_call → store_call → option str.
Variable store_response : list store_call → list str → Z → response.

(** A call to the store whose result the run does not inspect. *)
Definition store_do (c : store_call) : R unit := λ s,
  let s' := RunState (rs_world s) (rs_calls s ++ [c]) in
  match store_raises (rs_calls s) c with
  | Some message => (s', Failed (StoreError message))
  | None => (s', Done ())
  end.

(** [collection.query(query_texts=..., n_results=...)] *)
Definition collection_query (query_texts : list str) (n_results : Z)
    : R response := λ s,
  let c := CollectionQuery query_texts n_results in
  let s' := RunState (rs_world s) (rs_calls s ++ [c]) in
  match store_raises (rs_calls s) c with
  | Some message => (s', Failed (StoreError message))
  | None => (s', Done (store_response (rs_calls s) query_texts n_results))
  end.

(** [build_client(host, port)] *)
Definition build_client (host : str) (port : Z) : R unit :=
  store_do (HttpClient host port true false).

(** The body of the loop over the queries. *)
Definition run_query (query_data : str * gset str) : R unit :=
  let '(text, keywords) := query_data in
  response ← collection_query [text] 3;
  with_results response (evaluate_results lower text keywords).

Definition run (reset : bool) (environ : gmap str str) (env_file : option str)
    : R unit :=
  '(host, port) ← run_M (run_config int environ env_file);
  build_client host port;;
  (if reset then
     run_M (print (u "[cliente] --reset recibido. Limpiando datos remotos..."));;
     store_do ClientReset
   else mret ());;
  store_do (GetOrCreateCollection DEFAULT_COLLECTION_NAME);;
  store_do (CollectionUpsert ensure_documents);;
  run_M (print (u "[cliente] Documentos insertados/actualizados correctamente."));;
  for_each_R queries run_query;;
  run_M (print (newline ++
    u "Evaluación completada. Revisa los resultados anteriores para un análisis heurístico.")).

(** [str(exc)] for an exception of the client's own code. *)
Variable exn_message : exn → str.

(** The script after [parse_args]: [reset] is [arguments.reset]; the
    result is the exit status. *)
Definition main (reset : bool) (environ : gmap str str) (env_file : option str)
    (s : run_state) : run_state * Z :=
  match run reset environ env_file s with
  | (s', Done _) => (s', 0)
  | (s', Failed f) =>
    let exc := match f with
               | ClientError e => exn_message e
               | StoreError message => message
               end in
    (RunState (World (stdout (rs_world s') ++ [u "Error al ejecutar el cliente: " ++ exc])
                     (results_dict (rs_world s')))
              (rs_calls s'), 1)
  end.
End Run.

(** The calls of a run that nothing interrupts. *)
Definition planned_calls (reset : bool) (host : str) (port : Z) : list store_call :=
  [HttpClient host port true false] ++
  (if reset then [ClientReset] else []) ++
  [GetOrCreateCollection (u "articulos"); CollectionUpsert ensure_documents] ++
  ((λ query_data : str * gset str, CollectionQuery [query_data.1] 3) <$> queries).

(** A response in which the value under one of the three keys is an
    empty list. *)
Definition bad_response (r : response) : Prop :=
  r_ids r = Some [] ∨ r_documents r = Some [] ∨ r_metadatas r = Some [].

(** [follows plan m]: from every state, [m] makes the calls of [plan] in
    order and one after the other; it returns after the last one, or
    stops at a call that the store raises in, or stops with [IndexError]
    after a query whose response is bad. *)
Definition follows (store_raises : list store_call → store_call → option str)
    (store_response : list store_call → list str → Z → response)
    {A} (plan : list store_call) (m : R A) : Prop :=
  ∀ s, ∃ made,
    rs_calls (m s).1 = rs_calls s ++ made ∧
    made `prefix_of` plan ∧
    match (m s).2 with
    | Done _ => made = plan
    | Failed (StoreError message) =>
      ∃ before c, made = before ++ [c] ∧
                  store_raises (rs_calls s ++ before) c = Some message
    | Failed (ClientError e) =>
      ∃ before query_texts n_results,
        made = before ++ [CollectionQuery query_texts n_results] ∧
        e = IndexError ∧
        store_raises (rs_calls s ++ before)
          (CollectionQuery query_texts n_results) = None ∧
        bad_response (store_response (rs_calls s ++ before) query_texts n_results)
    end.


(** Stores and a starting state for worked runs: a store in which no
    call raises and every query returns an empty ranking, one whose reset
    is disabled, and one whose queries return a response without
    rankings. *)
Definition store_quiet : list store_call → store_call → option str :=
  λ _ _, None.
Definition store_reset_disabled : list store_call → store_call → option str :=
  λ _ c, match c with
         | ClientReset => Some (u "Resetting is not allowed")
         | _ => None
         end.
Definition response_empty : list store_call → list str → Z → response :=
  λ _ _ _, Response (Some [[]]) (Some [[]]) (Some [[]]).
Definition run_state0 : run_state :=
  RunState (World [] (Response None None None)) [].

Arguments u : simpl never.
Arguments str_of_Z : simpl never.
Arguments keyword_relevance : simpl never.
Arguments coverage_text : simpl never.

(** * Properties *)

(** ** Strings *)

Lemma startswith_nil (s : str) : startswith s [] = true.
Proof. by destruct s. Qed.

Lemma contains_nil (s : str) : contains s [] = true.
Proof. destruct s; simpl; by rewrite ?startswith_nil. Qed.

Lemma startswith_spec (s p : str) :
  startswith s p = true ↔ ∃ post, s = p ++ post.
Proof.
  revert s. induction p as [|a p IH]; intros s; simpl.
  - split; [by exists s | by destruct s].
  - destruct s as [|b s].
    + split; [done | by intros [post ?]].
    + simpl. rewrite andb_true_iff, N.eqb_eq, IH. split.
      * intros [-> [post ->]]. by exists post.
      * intros [post [= -> ->]]. eauto.
Qed.

Lemma contains_cons (c : N) (s sub : str) :
  contains (c :: s) sub = startswith (c :: s) sub || contains s sub.
Proof. reflexivity. Qed.

Lemma contains_spec (s sub : str) :
  contains s sub = true ↔ ∃ pre post, s = pre ++ sub ++ post.
Proof.
  induction s as [|c s IH]; [change (contains [] sub) with (startswith [] sub || false)
                            | rewrite contains_cons].
  - rewrite orb_false_r, startswith_spec. split.
    + intros [post ->]. by exists [], post.
    + intros (pre & post & H). symmetry in H.
      apply app_eq_nil in H as [-> H]. exists post. by rewrite H.
  - rewrite orb_true_iff, startswith_spec, IH. split.
    + intros [[post ->]|(pre & post & ->)].
      * by exists [], post.
      * by exists (c :: pre), post.
    + intros ([|c' pre] & post & H); simpl in H.
      * left. by exists post.
      * injection H as -> ->. right. by exists pre, post.
Qed.

Lemma py_sum_ones {A} (l : list A) :
  py_sum ((λ _, 1) <$> l) = Z.of_nat (length l).
Proof.
  unfold py_sum. cut (∀ acc, foldl Z.add acc ((λ _, 1) <$> l) = acc + Z.of_nat (length l)).
  { intros H. by rewrite H. }
  induction l as [|x l IH]; intros acc; simpl; [lia|]. rewrite IH. lia.
Qed.

(** ** Relevance scorer *)

Lemma size_matching_keywords (lower : str → str) (text : str) (keywords : gset str) :
  size (matching_keywords lower text keywords) =
  length (filter (λ kw, contains (lower text) kw = true) (elements keywords)).
Proof.
  unfold matching_keywords, size, set_size, filter at 1, set_filter. simpl.
  apply Permutation_length, elements_list_to_set, NoDup_filter, NoDup_elements.
Qed.

Lemma keyword_relevance_hits (lower : str → str) (text : str) (keywords : list str) :
  keyword_relevance lower text keywords =
  match length (filter (λ kw, contains (lower text) kw = true) keywords) with
  | 0%nat => 0
  | 1%nat => 3
  | 2%nat => 4
  | _ => 5
  end.
Proof.
  unfold keyword_relevance. rewrite py_sum_ones.
  destruct (length _) as [|[|[|n]]]; try reflexivity.
  repeat match goal with
         | |- context [?a =? ?b] => destruct (Z.eqb_spec a b); [lia|]
         end.
  reflexivity.
Qed.

(** C1: the score of a text against a keyword set is a function of the
    number [h] of keywords that occur in the lower-cased text: 0 for no
    hit, 3 for one, 4 for two and 5 for three or more; it is never 1 or 2
    and it does not decrease when [h] grows. *)
Theorem keyword_relevance_by_hit_count
    (lower : str → str) (text : str) (keywords : gset str) :
  let h := size (matching_keywords lower text keywords) in
  let score := keyword_relevance lower text (elements keywords) in
  (h = 0%nat → score = 0) ∧
  (h = 1%nat → score = 3) ∧
  (h = 2%nat → score = 4) ∧
  ((3 ≤ h)%nat → score = 5) ∧
  score ≠ 1 ∧ score ≠ 2 ∧
  ∀ (text' : str) (keywords' : gset str),
    (h ≤ size (matching_keywords lower text' keywords'))%nat →
    score ≤ keyword_relevance lower text' (elements keywords').
Proof.
  intros h score. subst h score.
  rewrite keyword_relevance_hits, size_matching_keywords.
  destruct (length _) as [|[|[|n]]]; (repeat split; try (done || lia)).
  all: intros text' keywords'; rewrite keyword_relevance_hits, size_matching_keywords.
  all: destruct (length _) as [|[|[|m]]]; lia.
Qed.

Lemma keyword_relevance_by_hit_count_witness :
  keyword_relevance lower_latin1 (u "The IA system") (elements ({[ u "ia" ]} : gset str)) = 3 ∧
  keyword_relevance lower_latin1 (u "The IA system") (elements ({[ u "ia" ]} : gset str))
  ≤ keyword_relevance lower_latin1 (u "ia, nlp") (elements ({[ u "ia"; u "nlp" ]} : gset str)).
Proof.
  destruct (keyword_relevance_by_hit_count lower_latin1 (u "The IA system") {[ u "ia" ]})
    as (_ & H1 & _ & _ & _ & _ & Hmono).
  split.
  - apply H1. vm_compute. reflexivity.
  - apply Hmono. vm_compute. lia.
Defined.

(** C10: the empty string occurs in every text, so a keyword set that
    contains it always has a hit and the score is at least 3. *)
Theorem empty_keyword_always_hits
    (lower : str → str) (text : str) (keywords : gset str) :
  [] ∈ keywords →
  [] ∈ matching_keywords lower text keywords ∧
  3 ≤ keyword_relevance lower text (elements keywords) ∧
  keyword_relevance lower text (elements keywords) ≠ 0.
Proof.
  intros Hin.
  assert (Hhit : [] ∈ matching_keywords lower text keywords).
  { unfold matching_keywords. apply elem_of_filter. split; [apply contains_nil | done]. }
  split; [done|].
  assert (size (matching_keywords lower text keywords) ≠ 0%nat) as Hsize.
  { intros H0. apply size_empty_inv in H0. by apply H0 in Hhit. }
  rewrite keyword_relevance_hits, <- size_matching_keywords.
  destruct (size _) as [|[|[|n]]]; [done | lia ..].
Qed.

Lemma empty_keyword_always_hits_witness :
  3 ≤ keyword_relevance lower_latin1 (u "jazz") (elements ({[ []; u "nlp" ]} : gset str)).
Proof.
  apply (empty_keyword_always_hits lower_latin1 (u "jazz") {[ []; u "nlp" ]}).
  apply elem_of_union_l, elem_of_singleton. reflexivity.
Defined.

Lemma lower_cp_idemp (c : N) : lower_cp (lower_cp c) = lower_cp c.
Proof.
  unfold lower_cp.
  destruct (N.leb_spec 65 c), (N.leb_spec c 90), (N.leb_spec 192 c),
    (N.leb_spec c 222), (N.eqb_spec c 215); simpl; try lia.
  all: repeat match goal with
         | |- context [(?a <=? ?b)%N] => destruct (N.leb_spec a b); simpl
         | |- context [(?a =? ?b)%N] => destruct (N.eqb_spec a b); simpl
         end; lia.
Qed.

(** A keyword that occurs in a lower-cased text has no capital letter. *)
Lemma contains_lower_latin1 (text kw : str) :
  contains (lower_latin1 text) kw = true → Forall (λ c, lower_cp c = c) kw.
Proof.
  rewrite contains_spec. intros (pre & post & H).
  apply Forall_forall. intros c Hc.
  assert (c ∈ lower_latin1 text) as Hin.
  { rewrite H. rewrite !elem_of_app. auto. }
  unfold lower_latin1 in Hin. apply list_elem_of_fmap in Hin as (c' & -> & _).
  apply lower_cp_idemp.
Qed.

(** C2, counterexample: the same words with the capitals in the keyword
    instead of the text do not score the same. *)
Lemma keyword_case_counterexample :
  keyword_relevance lower_latin1 (u "The IA system") (elements ({[ u "ia" ]} : gset str)) ≠
  keyword_relevance lower_latin1 (u "the ia system") (elements ({[ u "IA" ]} : gset str)).
Proof. vm_compute. discriminate. Qed.

(** C2, amended: matching ignores the case of the text only.  Texts with
    the same lower-cased form score the same against every keyword list;
    keywords are compared as written with the lower-cased text, so one
    with a capital letter never occurs in it. *)
Theorem keyword_matching_ignores_text_case
    (lower : str → str) (text text' : str) (keywords : list str) :
  (lower text = lower text' →
   keyword_relevance lower text keywords = keyword_relevance lower text' keywords) ∧
  (∀ (kw : str) (c : N),
     c ∈ kw → lower_cp c ≠ c → contains (lower_latin1 text) kw = false) ∧
  keyword_relevance lower_latin1 (u "The IA system") (elements ({[ u "ia" ]} : gset str)) = 3 ∧
  keyword_relevance lower_latin1 (u "the ia system") (elements ({[ u "ia" ]} : gset str)) = 3 ∧
  keyword_relevance lower_latin1 (u "the ia system") (elements ({[ u "IA" ]} : gset str)) = 0.
Proof.
  split; [|split].
  - intros H. unfold keyword_relevance. by rewrite H.
  - intros kw c Hc Hne. destruct (contains _ kw) eqn:E; [|done].
    apply contains_lower_latin1 in E.
    rewrite Forall_forall in E. by apply E in Hc.
  - repeat split; vm_compute; reflexivity.
Qed.

Lemma keyword_matching_ignores_text_case_witness :
  keyword_relevance lower_latin1 (u "EMISIONES de gases") [u "emisiones"] =
  keyword_relevance lower_latin1 (u "Emisiones De Gases") [u "emisiones"] ∧
  contains (lower_latin1 (u "EMISIONES de gases")) (u "Emisiones") = false.
Proof.
  destruct (keyword_matching_ignores_text_case lower_latin1
              (u "EMISIONES de gases") (u "Emisiones De Gases") [u "emisiones"])
    as (Htext & Hkw & _).
  split.
  - apply Htext. vm_compute. reflexivity.
  - apply (Hkw (u "Emisiones") 69%N).
    + vm_compute. left.
    + vm_compute. discriminate.
Defined.

(** C3, counterexample: three of the four keywords occur in the ecology
    document, so its score is not 4. *)
Lemma ecology_score_counterexample :
  keyword_relevance lower_latin1 ecology_text (elements ecology_keywords) ≠ 4.
Proof. vm_compute. discriminate. Qed.

(** ** Result evaluator *)

Lemma bind_print {A} (line : str) (k : () → M A) (w : world) :
  (print line ≫= k) w = k () (World (stdout w ++ [line]) (results_dict w)).
Proof. reflexivity. Qed.

Lemma print_entry_run (lower : str → str) (keywords : gset str)
    (entry : Z * (str * str * metadata)) (w : world) :
  print_entry lower keywords entry w =
  (World (stdout w ++ entry_lines lower keywords entry) (results_dict w), Ok ()).
Proof.
  destruct entry as [idx [[doc_id doc_text] md]].
  unfold print_entry, entry_lines, print, mbind, M_bind. simpl.
  by rewrite <- !app_assoc.
Qed.

Lemma for_each_print_entry (lower : str → str) (keywords : gset str)
    (entries : list (Z * (str * str * metadata))) (w : world) :
  for_each entries (print_entry lower keywords) w =
  (World (stdout w ++ flat_map (entry_lines lower keywords) entries) (results_dict w),
   Ok ()).
Proof.
  revert w. induction entries as [|e entries IH]; intros w.
  - simpl. unfold mret, M_ret. rewrite app_nil_r. by destruct w.
  - change (for_each (e :: entries) (print_entry lower keywords) w)
      with (match print_entry lower keywords e w with
            | (w', Ok a) => for_each entries (print_entry lower keywords) w'
            | (w', Raise x) => (w', Raise x)
            end).
    rewrite print_entry_run, IH. simpl. by rewrite <- app_assoc.
Qed.

Lemma related_hits_note (lower : str → str) (keywords : gset str)
    (documents : list str) :
  match filter (λ doc, any_keyword_in lower doc keywords = true) documents with
  | _ :: _ => print note_exact_keyword_match
  | [] => print note_semantic_only
  end = print (note_line lower keywords documents).
Proof.
  unfold note_line. induction documents as [|doc documents IH].
  - rewrite filter_nil. cbn [existsb]. cbv beta iota. reflexivity.
  - rewrite filter_cons. cbn [existsb].
    destruct (any_keyword_in lower doc keywords).
    + rewrite decide_True by reflexivity. cbn [orb]. cbv beta iota. reflexivity.
    + rewrite decide_False by discriminate. cbn [orb]. exact IH.
Qed.

Lemma results_get_item0 {A} (field : response → option (list (list A))) (w : world) :
  (results_get field ≫= item0) w =
  match ranked (field (results_dict w)) with
  | Some l => (w, Ok l)
  | None => (w, Raise IndexError)
  end.
Proof.
  unfold results_get, ranked, mbind, M_bind.
  by destruct (default [[]] (field (results_dict w))).
Qed.

(** What a call of [evaluate_results] does: it raises [IndexError]
    before printing when one of the three lists of lists is empty, and
    prints the report otherwise. *)
Lemma evaluate_results_run (lower : str → str) (query : str)
    (keywords : gset str) (w : world) :
  evaluate_results lower query keywords w =
  match ranked (r_ids (results_dict w)), ranked (r_documents (results_dict w)),
        ranked (r_metadatas (results_dict w)) with
  | Some ids, Some documents, Some metadatas =>
    (World (stdout w ++ report_lines lower query keywords ids documents metadatas)
           (results_dict w), Ok ())
  | _, _, _ => (w, Raise IndexError)
  end.
Proof.
  unfold evaluate_results.
  unfold mbind at 1, M_bind at 1. rewrite results_get_item0.
  destruct (ranked (r_ids _)) as [ids|]; [|done].
  unfold mbind at 1, M_bind at 1. rewrite results_get_item0.
  destruct (ranked (r_documents _)) as [documents|]; [|done].
  unfold mbind at 1, M_bind at 1. rewrite results_get_item0.
  destruct (ranked (r_metadatas _)) as [metadatas|]; [|done].
  rewrite related_hits_note, !bind_print.
  unfold mbind at 1, M_bind at 1. rewrite for_each_print_entry.
  rewrite bind_print. unfold print. cbn [stdout results_dict].
  unfold report_lines, header_lines. rewrite <- !app_assoc. reflexivity.
Qed.

Lemma lookup_entry_topic_line (lower : str → str) (keywords : gset str)
    (entries : list (str * str * metadata)) (start : Z) (i : nat)
    (doc_id doc_text : str) (md : metadata) :
  entries !! i = Some (doc_id, doc_text, md) →
  flat_map (entry_lines lower keywords) (enumerate start entries) !! (4 * i + 1)%nat =
  Some (u "       Tema: " ++ format (topic_of md)).
Proof.
  revert start i. induction entries as [|e entries IH]; intros start i Hi; [done|].
  destruct i as [|i].
  - injection Hi as ->. reflexivity.
  - replace (4 * S i + 1)%nat with (4 + (4 * i + 1))%nat by lia.
    cbn [enumerate flat_map]. destruct e as [[? ?] ?].
    exact (IH (start + 1) i Hi).
Qed.

Lemma coverage_text_nil : coverage_text [] = placeholder_no_data.
Proof. vm_compute. reflexivity. Qed.

Lemma ecology_any_keyword :
  any_keyword_in lower_latin1 ecology_text ecology_keywords = true.
Proof. vm_compute. reflexivity. Qed.

(** C3, amended: the ecology document contains three of the four
    keywords of the first query, its score is 5, and the report on any
    response whose documents include its text ends with the note of an
    exact keyword match. *)
Theorem ecology_document_scenario
    (query : str) (w : world) (ids documents : list str) (metadatas : list metadata) :
  ranked (r_ids (results_dict w)) = Some ids →
  ranked (r_documents (results_dict w)) = Some documents →
  ranked (r_metadatas (results_dict w)) = Some metadatas →
  ecology_text ∈ documents →
  seed_documents !! 2%nat =
    Some (u "ecologia-01", ecology_text, {[ u "tema" := u "ecologia" ]}) ∧
  snd <$> queries !! 0%nat = Some ecology_keywords ∧
  size (matching_keywords lower_latin1 ecology_text ecology_keywords) = 3%nat ∧
  keyword_relevance lower_latin1 ecology_text (elements ecology_keywords) = 5 ∧
  ∃ out : list str,
    evaluate_results lower_latin1 query ecology_keywords w =
    (World (stdout w ++ out ++ [note_exact_keyword_match]) (results_dict w), Ok ()).
Proof.
  intros Hids Hdocs Hmetas Hin.
  do 4 (split; [vm_compute; reflexivity|]).
  rewrite evaluate_results_run, Hids, Hdocs, Hmetas.
  assert (note_line lower_latin1 ecology_keywords documents = note_exact_keyword_match)
    as Hnote.
  { unfold note_line.
    assert (existsb (λ doc, any_keyword_in lower_latin1 doc ecology_keywords) documents
            = true) as ->; [|reflexivity].
    apply existsb_exists. exists ecology_text. split.
    - apply list_elem_of_In, Hin.
    - apply ecology_any_keyword. }
  exists (header_lines query ++
          flat_map (entry_lines lower_latin1 ecology_keywords)
            (enumerate 1 (zip3 ids documents metadatas)) ++
          [u "Cobertura temática: " ++ coverage_text metadatas]).
  unfold report_lines. rewrite Hnote, <- !app_assoc. reflexivity.
Qed.

Lemma ecology_document_scenario_witness :
  ∃ out : list str,
    evaluate_results lower_latin1 (u "¿Cómo reducir el impacto ambiental de una ciudad?")
      ecology_keywords
      (World [] (Response (Some [[u "ecologia-01"]]) (Some [[ecology_text]])
                          (Some [[MdDict {[ u "tema" := u "ecologia" ]}]]))) =
    (World ([] ++ out ++ [note_exact_keyword_match])
       (Response (Some [[u "ecologia-01"]]) (Some [[ecology_text]])
                 (Some [[MdDict {[ u "tema" := u "ecologia" ]}]])), Ok ()).
Proof.
  refine (proj2 (proj2 (proj2 (proj2
    (ecology_document_scenario (u "¿Cómo reducir el impacto ambiental de una ciudad?")
       (World [] (Response (Some [[u "ecologia-01"]]) (Some [[ecology_text]])
                           (Some [[MdDict {[ u "tema" := u "ecologia" ]}]])))
       [u "ecologia-01"] [ecology_text] [MdDict {[ u "tema" := u "ecologia" ]}]
       _ _ _ _))))); [vm_compute; reflexivity ..|].
  apply list_elem_of_here.
Defined.

(** C8: for every ranked entry the evaluator prints, as its topic line,
    the metadata value itself when that value is not a dictionary, the
    value under the topic key when it is a dictionary with the key, and
    the placeholder for an unknown topic when the key is absent. *)
Theorem topic_resolution
    (lower : str → str) (query : str) (keywords : gset str) (w : world)
    (ids documents : list str) (metadatas : list metadata)
    (i : nat) (doc_id doc_text : str) (md : metadata) :
  ranked (r_ids (results_dict w)) = Some ids →
  ranked (r_documents (results_dict w)) = Some documents →
  ranked (r_metadatas (results_dict w)) = Some metadatas →
  zip3 ids documents metadatas !! i = Some (doc_id, doc_text, md) →
  stdout (evaluate_results lower query keywords w).1
    !! (length (stdout w) + 3 + (4 * i + 1))%nat
  = Some (u "       Tema: " ++ format (topic_of md)) ∧
  (∀ v, md = MdOther v → topic_of md = v) ∧
  (∀ d t, md = MdDict d → d !! topic_key = Some t → topic_of md = PyStr t) ∧
  (∀ d, md = MdDict d → d !! topic_key = None →
        topic_of md = PyStr placeholder_unknown).
Proof.
  intros Hids Hdocs Hmetas Hi. split; [|split; [|split]].
  - rewrite evaluate_results_run, Hids, Hdocs, Hmetas. cbn [fst stdout].
    rewrite <- Nat.add_assoc, lookup_app_r by lia.
    replace (length (stdout w) + (3 + (4 * i + 1)) - length (stdout w))%nat
      with (length (header_lines query) + (4 * i + 1))%nat
      by (change (length (header_lines query)) with 3%nat; lia).
    unfold report_lines. rewrite lookup_app_r by lia.
    replace (length (header_lines query) + (4 * i + 1) - length (header_lines query))%nat
      with (4 * i + 1)%nat by lia.
    apply lookup_app_l_Some. by apply lookup_entry_topic_line with doc_id doc_text.
  - by intros v ->.
  - intros d t -> Ht. unfold topic_of. fold topic_key. by rewrite Ht.
  - intros d -> Ht. unfold topic_of. fold topic_key. by rewrite Ht.
Qed.

Lemma topic_resolution_witness :
  stdout (evaluate_results lower_latin1 (u "q") ecology_keywords
            (World [] (Response (Some [[u "a"; u "b"]]) (Some [[u "x"; u "y"]])
                                (Some [[MdDict ∅; MdOther PyNone]])))).1
    !! (length ([] : list str) + 3 + (4 * 1 + 1))%nat
  = Some (u "       Tema: " ++ format (topic_of (MdOther PyNone))) ∧
  topic_of (MdDict ∅) = PyStr placeholder_unknown.
Proof.
  split.
  - refine (proj1 (topic_resolution lower_latin1 (u "q") ecology_keywords
      (World [] (Response (Some [[u "a"; u "b"]]) (Some [[u "x"; u "y"]])
                          (Some [[MdDict ∅; MdOther PyNone]])))
      [u "a"; u "b"] [u "x"; u "y"] [MdDict ∅; MdOther PyNone]
      1 (u "b") (u "y") (MdOther PyNone) _ _ _ _)); vm_compute; reflexivity.
  - refine (proj2 (proj2 (proj2 (topic_resolution lower_latin1 (u "q") ecology_keywords
      (World [] (Response (Some [[u "a"]]) (Some [[u "x"]]) (Some [[MdDict ∅]])))
      [u "a"] [u "x"] [MdDict ∅] 0 (u "a") (u "x") (MdDict ∅) _ _ _ _))) ∅ _ _);
      vm_compute; reflexivity.
Defined.

(** C9: a response without ranked documents and metadata is reported
    without an exception, with the placeholder for no data as coverage
    and the note of a semantic-only match; and no call, whatever the
    response, changes the dictionary that [results] refers to. *)
Theorem evaluate_results_no_entries
    (lower : str → str) (query : str) (keywords : gset str) (w : world) :
  (∀ ids : list str,
     ranked (r_ids (results_dict w)) = Some ids →
     ranked (r_documents (results_dict w)) = Some [] →
     ranked (r_metadatas (results_dict w)) = Some [] →
     evaluate_results lower query keywords w =
     (World (stdout w ++ header_lines query ++
               [ u "Cobertura temática: " ++ placeholder_no_data;
                 note_semantic_only ])
            (results_dict w), Ok ())) ∧
  results_dict (evaluate_results lower query keywords w).1 = results_dict w.
Proof.
  split.
  - intros ids Hids Hdocs Hmetas.
    rewrite evaluate_results_run, Hids, Hdocs, Hmetas.
    unfold report_lines, zip3. rewrite zip_with_nil_r, coverage_text_nil.
    reflexivity.
  - rewrite evaluate_results_run.
    by destruct (ranked (r_ids (results_dict w))),
         (ranked (r_documents (results_dict w))),
         (ranked (r_metadatas (results_dict w))).
Qed.

Lemma evaluate_results_no_entries_witness :
  evaluate_results lower_latin1 (u "q") ecology_keywords
    (World [] (Response (Some [[]]) None (Some [[]]))) =
  (World ([] ++ header_lines (u "q") ++
            [ u "Cobertura temática: " ++ placeholder_no_data; note_semantic_only ])
         (Response (Some [[]]) None (Some [[]])), Ok ()).
Proof.
  refine (proj1 (evaluate_results_no_entries lower_latin1 (u "q") ecology_keywords
    (World [] (Response (Some [[]]) None (Some [[]])))) [] _ _ _);
    vm_compute; reflexivity.
Defined.

(** ** Config resolver *)

(** [break_at] splits at the first occurrence. *)
Lemma break_at_spec (c : N) (s k v : str) :
  break_at c s = Some (k, v) ↔ s = k ++ c :: v ∧ c ∉ k.
Proof.
  revert k v. induction s as [|a s IH]; intros k v; simpl.
  - split; [done|]. intros [H _]. by destruct k.
  - destruct (N.eqb_spec a c) as [->|Hne].
    + split.
      * intros [= <- <-]. split; [done|]. apply not_elem_of_nil.
      * intros [H Hk]. destruct k as [|b k]; simpl in H.
        -- by injection H as ->.
        -- injection H as <- _. exfalso. apply Hk. left.
    + destruct (break_at c s) as [[k' v']|]; simpl.
      * split.
        -- intros [= <- <-]. destruct (proj1 (IH k' v') eq_refl) as [-> Hk'].
           split; [done|]. rewrite not_elem_of_cons. auto.
        -- intros [H Hk]. destruct k as [|b k]; simpl in H.
           ++ injection H as -> _. done.
           ++ injection H as <- H. apply not_elem_of_cons in Hk as [_ Hk].
              pose proof (proj2 (IH k v) (conj H Hk)) as Heq. by simplify_eq.
      * split; [done|]. intros [H Hk]. destruct k as [|b k]; simpl in H.
        -- injection H as -> _. done.
        -- injection H as <- H. apply not_elem_of_cons in Hk as [_ Hk].
           pose proof (proj2 (IH k v) (conj H Hk)) as Heq. by simplify_eq.
Qed.

Lemma startswith_char (s : str) (c : N) :
  startswith s [c] = bool_decide (head s = Some c).
Proof.
  destruct s as [|a s]; [done|]. simpl.
  rewrite andb_comm, startswith_nil. simpl.
  destruct (N.eqb_spec c a) as [->|Hne].
  - by rewrite bool_decide_eq_true_2.
  - rewrite bool_decide_eq_false_2; [done|]. intros [= ->]. done.
Qed.

Lemma split_first_from_char (c : N) (acc s : str) :
  split_first_from [c] acc s =
  match break_at c s with
  | Some (k, v) => [reverse acc ++ k; v]
  | None => [reverse acc ++ s]
  end.
Proof.
  revert acc. induction s as [|a s IH]; intros acc.
  - simpl. by rewrite app_nil_r.
  - change (split_first_from [c] acc (a :: s))
      with (if startswith (a :: s) [c] then [reverse acc; drop 1 (a :: s)]
            else split_first_from [c] (a :: acc) s).
    rewrite startswith_char. simpl.
    destruct (N.eqb_spec a c) as [->|Hne].
    + rewrite bool_decide_eq_true_2 by done. by rewrite app_nil_r.
    + rewrite bool_decide_eq_false_2 by (intros [= ->]; done).
      rewrite IH, reverse_cons.
      destruct (break_at c s) as [[k v]|]; simpl; by rewrite <- app_assoc.
Qed.

Lemma contains_char (s : str) (c : N) :
  contains s [c] = bool_decide (is_Some (break_at c s)).
Proof.
  induction s as [|a s IH]; [reflexivity|].
  rewrite contains_cons, startswith_char, IH. cbn [break_at].
  destruct (N.eqb_spec a c) as [->|Hne].
  - rewrite bool_decide_eq_true_2 by done. reflexivity.
  - rewrite (bool_decide_eq_false_2 (head (a :: s) = Some c))
      by (intros [= ->]; done).
    cbn [orb]. by destruct (break_at c s) as [[k v]|].
Qed.

Lemma load_env_line_spec (env_values : gmap str str) (line : str) :
  load_env_line env_values line = Ok (spec_add_line env_values line).
Proof.
  unfold load_env_line, spec_add_line, spec_line_entry.
  change (u "#") with [35%N]. change (u "=") with [61%N].
  rewrite startswith_char, contains_char.
  destruct (strip line) as [|c0 t]; [reflexivity|].
  rewrite (bool_decide_eq_false_2 (c0 :: t = [])) by done.
  cbn [head orb].
  destruct (decide (c0 = 35%N)) as [->|Hc]; [reflexivity|].
  rewrite (bool_decide_eq_false_2 (Some c0 = Some 35%N)) by (intros [= ->]; done).
  rewrite (bool_decide_eq_false_2 (_ ∨ _)) by (intros [?|[= ->]]; done).
  unfold split_max1. cbn [mbind result_bind]. rewrite split_first_from_char.
  by destruct (break_at 61 (c0 :: t)) as [[k v]|].
Qed.

Lemma load_env_lines_spec (env_values : gmap str str) (lines : list str) :
  load_env_lines env_values lines = Ok (foldl spec_add_line env_values lines).
Proof.
  revert env_values. induction lines as [|line lines IH]; intros env_values; [done|].
  simpl. rewrite load_env_line_spec. simpl. apply IH.
Qed.

(** C5: a missing file gives the empty mapping; the mapping of a file is
    built line by line as the specification describes ([spec_env_file]:
    each line trimmed, blank lines, comments and lines without [=]
    skipped, the others split at their first [=] with key and value
    trimmed), and the five example lines give exactly the two entries. *)
Theorem load_env_file_spec :
  load_env_file None = Ok ∅ ∧
  (∀ content : str, load_env_file (Some content) = Ok (spec_env_file content)) ∧
  splitlines (join newline [ u "# comment"; []; u "FOO=bar"; u "BADLINE";
                             u " KEY = value with spaces " ]) =
    [ u "# comment"; []; u "FOO=bar"; u "BADLINE"; u " KEY = value with spaces " ] ∧
  load_env_file (Some (join newline [ u "# comment"; []; u "FOO=bar"; u "BADLINE";
                                      u " KEY = value with spaces " ])) =
    Ok {[ u "FOO" := u "bar"; u "KEY" := u "value with spaces" ]}.
Proof.
  split; [reflexivity|]. split.
  - intros content. apply load_env_lines_spec.
  - split; vm_compute; reflexivity.
Qed.

(** C4: a variable of the environment that is set and not empty wins
    over the entry of the file, which wins over the default; the default
    is the result when the key is nowhere. *)
Theorem resolve_setting_precedence
    (environ env_file_values : gmap str str) (env_key fallback : str) :
  (∀ v : str, environ !! env_key = Some v → v ≠ [] →
     resolve_setting environ env_key fallback env_file_values = v) ∧
  (environ !! env_key = None ∨ environ !! env_key = Some [] →
     (∀ v : str, env_file_values !! env_key = Some v →
        resolve_setting environ env_key fallback env_file_values = v) ∧
     (env_file_values !! env_key = None →
        resolve_setting environ env_key fallback env_file_values = fallback)) ∧
  (∃ file_values : gmap str str,
     load_env_file (Some (u "PORT=7000")) = Ok file_values ∧
     resolve_setting {[ u "PORT" := u "9000" ]} (u "PORT") (u "8000") file_values
       = u "9000" ∧
     resolve_setting ∅ (u "PORT") (u "8000") file_values = u "7000" ∧
     resolve_setting ∅ (u "PORT") (u "8000") ∅ = u "8000").
Proof.
  unfold resolve_setting. split; [|split].
  - intros v -> Hv. by destruct v.
  - intros Henv. assert (∀ b, or_else (environ !! env_key) b = b) as Hor.
    { intros b. by destruct Henv as [-> | ->]. }
    split.
    + intros v ->. apply Hor.
    + intros ->. apply Hor.
  - exists {[ u "PORT" := u "7000" ]}. repeat split; vm_compute; reflexivity.
Qed.

Lemma resolve_setting_precedence_witness :
  resolve_setting {[ u "PORT" := u "9000" ]} (u "PORT") (u "8000")
    {[ u "PORT" := u "7000" ]} = u "9000" ∧
  resolve_setting {[ u "PORT" := [] ]} (u "PORT") (u "8000")
    {[ u "PORT" := u "7000" ]} = u "7000" ∧
  resolve_setting ∅ (u "PORT") (u "8000") {[ u "HOST" := u "db" ]} = u "8000".
Proof.
  split; [|split].
  - apply (proj1 (resolve_setting_precedence {[ u "PORT" := u "9000" ]}
                    {[ u "PORT" := u "7000" ]} (u "PORT") (u "8000"))).
    + vm_compute. reflexivity.
    + vm_compute. discriminate.
  - apply (proj1 (proj2 (resolve_setting_precedence {[ u "PORT" := [] ]}
                    {[ u "PORT" := u "7000" ]} (u "PORT") (u "8000")))).
    + right. vm_compute. reflexivity.
    + vm_compute. reflexivity.
  - apply (proj1 (proj2 (resolve_setting_precedence ∅
                    {[ u "HOST" := u "db" ]} (u "PORT") (u "8000")))).
    + left. vm_compute. reflexivity.
    + vm_compute. reflexivity.
Defined.

(** ** Query runner *)

Lemma load_env_file_total (env_file : option str) :
  ∃ env_file_values, load_env_file env_file = Ok env_file_values.
Proof.
  destruct env_file as [content|]; [|by exists ∅].
  exists (spec_env_file content). apply load_env_lines_spec.
Qed.

(** C6: the configuration step of a run never raises; a port string that
    [int] accepts gives its value unchanged and prints nothing, one that
    [int] rejects prints the diagnostic and gives the default port 8000. *)
Theorem run_config_port
    (int : str → option Z) (environ : gmap str str) (env_file : option str)
    (w : world) :
  DEFAULT_PORT = 8000 ∧
  ∃ env_file_values : gmap str str,
    load_env_file env_file = Ok env_file_values ∧
    let host := resolve_setting environ (u "CHROMA_HOST") DEFAULT_HOST env_file_values in
    let port_str :=
      resolve_setting environ (u "CHROMA_PORT") (u "8000") env_file_values in
    (∀ port : Z, int port_str = Some port →
       run_config int environ env_file w = (w, Ok (host, port))) ∧
    (int port_str = None →
       run_config int environ env_file w =
       (World (stdout w ++
                 [u "Puerto inválido en CHROMA_PORT: " ++ port_str ++ u ". Usando 8000."])
              (results_dict w), Ok (host, 8000))).
Proof.
  split; [reflexivity|].
  destruct (load_env_file_total env_file) as [env_file_values Hload].
  exists env_file_values. split; [done|]. intros host port_str.
  unfold run_config. rewrite Hload.
  change (str_of_Z DEFAULT_PORT) with (u "8000"). fold port_str. fold host.
  split.
  - intros port ->. reflexivity.
  - intros ->. rewrite bind_print. unfold mret, M_ret.
    change (u ". Usando " ++ u "8000" ++ u ".") with (u ". Usando 8000.").
    reflexivity.
Qed.

Lemma run_config_port_witness :
  run_config int_ascii {[ u "CHROMA_PORT" := u "9000" ]} None
    (World [] (Response None None None)) =
  (World [] (Response None None None), Ok (u "localhost", 9000)) ∧
  run_config int_ascii {[ u "CHROMA_PORT" := u "80a" ]} (Some (u "CHROMA_HOST=db"))
    (World [] (Response None None None)) =
  (World [u "Puerto inválido en CHROMA_PORT: 80a. Usando 8000."]
         (Response None None None), Ok (u "db", 8000)).
Proof.
  split.
  - destruct (run_config_port int_ascii {[ u "CHROMA_PORT" := u "9000" ]} None
                (World [] (Response None None None)))
      as (_ & fv & Hfv & Hok & _).
    injection Hfv as <-.
    rewrite (Hok 9000); vm_compute; reflexivity.
  - destruct (run_config_port int_ascii {[ u "CHROMA_PORT" := u "80a" ]}
                (Some (u "CHROMA_HOST=db")) (World [] (Response None None None)))
      as (_ & fv & Hfv & _ & Hbad).
    assert (fv = {[ u "CHROMA_HOST" := u "db" ]}) as ->.
    { assert (Ok fv = Ok ({[ u "CHROMA_HOST" := u "db" ]} : gmap str str)) as [= ->];
        [|done].
      rewrite <- Hfv. vm_compute. reflexivity. }
    rewrite Hbad; vm_compute; reflexivity.
Defined.

(** ** Collection seeder *)

(** C7: the corpus has ten records with pairwise distinct ids and ten
    distinct topics, and the three lists given to [upsert] hold, at each
    position, the id, the text and the metadata of the record at that
    position. *)
Theorem ensure_documents_correlated :
  length seed_documents = 10%nat ∧
  length (ids ensure_documents) = 10%nat ∧
  length (documents ensure_documents) = 10%nat ∧
  length (metadatas ensure_documents) = 10%nat ∧
  NoDup (ids ensure_documents) ∧
  (∃ topics : list str,
     (λ md : gmap str str, md !! topic_key) <$> metadatas ensure_documents
       = Some <$> topics ∧
     NoDup topics ∧ length topics = 10%nat) ∧
  ∀ (i : nat) (doc_id text : str) (metadata : gmap str str),
    seed_documents !! i = Some (doc_id, text, metadata) ↔
    ids ensure_documents !! i = Some doc_id ∧
    documents ensure_documents !! i = Some text ∧
    metadatas ensure_documents !! i = Some metadata.
Proof.
  split; [reflexivity|]. do 3 (split; [reflexivity|]).
  split; [compute_done|].
  split.
  - exists [u "historia"; u "ia"; u "ecologia"; u "deporte"; u "economia";
            u "medicina"; u "tecnologia"; u "musica"; u "literatura"; u "ciencia"].
    split; [vm_compute; reflexivity|].
    split; [compute_done | reflexivity].
  - intros i doc_id text metadata. unfold ensure_documents. cbn [ids documents metadatas].
    rewrite !list_lookup_fmap.
    destruct (seed_documents !! i) as [[[a b] c]|]; simpl.
    + split; [by intros [= -> -> ->] | by intros ([= ->] & [= ->] & [= ->])].
    + split; [done | by intros [? _]].
Qed.

(** ** Worked examples *)

Example strip_example :
  strip (9%N :: u "  KEY = v  " ++ [13%N; 10%N]) = u "KEY = v".
Proof. vm_compute. reflexivity. Qed.

Example splitlines_example :
  splitlines (u "a" ++ [13%N; 10%N] ++ u "b" ++ [10%N; 10%N] ++ u "c" ++ [10%N]) =
  [u "a"; u "b"; []; u "c"].
Proof. vm_compute. reflexivity. Qed.

Example split_max1_example :
  split_max1 (u "A=b=c") (u "=") = Ok [u "A"; u "b=c"] ∧
  split_max1 (u "Abc") (u "=") = Ok [u "Abc"].
Proof. split; vm_compute; reflexivity. Qed.

Example load_env_file_last_wins :
  load_env_file (Some (u "A=1" ++ newline ++ u "A=2=3")) = Ok {[ u "A" := u "2=3" ]}.
Proof. vm_compute. reflexivity. Qed.

Example int_ascii_examples :
  int_ascii (u " 8000 ") = Some 8000 ∧ int_ascii (u "-1_0") = Some (-10) ∧
  int_ascii (u "80a") = None ∧ int_ascii [] = None ∧ int_ascii (u "1__0") = None.
Proof. repeat split; vm_compute; reflexivity. Qed.

Example coverage_text_example :
  coverage_text [ MdDict {[ u "tema" := u "ia" ]}; MdOther PyNone; MdDict ∅;
                  MdDict {[ u "tema" := u "ecologia" ]};
                  MdDict {[ u "tema" := u "ia" ]} ] = u "ecologia, ia".
Proof. vm_compute. reflexivity. Qed.

Example evaluate_results_example :
  evaluate_results lower_latin1 (u "q") ecology_keywords
    (World [] (Response (Some [[u "ecologia-01"; u "x"]])
                        (Some [[ecology_text; u "Jazz"]])
                        (Some [[MdDict {[ u "tema" := u "ecologia" ]}; MdOther PyNone]]))) =
  (World [ newline ++ u "==============================";
           u "Consulta: q";
           u "Resultados (top 3):";
           u "#1 -> ID: ecologia-01";
           u "       Tema: ecologia";
           u "       Texto: " ++ ecology_text;
           u "       Relevancia aparente (0-5): 5";
           u "#2 -> ID: x";
           u "       Tema: None";
           u "       Texto: Jazz";
           u "       Relevancia aparente (0-5): 0";
           u "Cobertura temática: ecologia";
           note_exact_keyword_match ]
         (Response (Some [[u "ecologia-01"; u "x"]])
                   (Some [[ecology_text; u "Jazz"]])
                   (Some [[MdDict {[ u "tema" := u "ecologia" ]}; MdOther PyNone]])),
   Ok ()).
Proof. vm_compute. reflexivity. Qed.

Example evaluate_results_index_error :
  evaluate_results lower_latin1 (u "q") ecology_keywords
    (World [] (Response (Some []) None None)) =
  (World [] (Response (Some []) None None), Raise IndexError).
Proof. vm_compute. reflexivity. Qed.

(** * Further properties *)

(** ** Relevance scorer *)

Lemma hits_score_mono (n m : nat) :
  (n ≤ m)%nat →
  match n with 0%nat => 0 | 1%nat => 3 | 2%nat => 4 | _ => 5 end ≤
  match m with 0%nat => 0 | 1%nat => 3 | 2%nat => 4 | _ => 5 end.
Proof. destruct n as [|[|[|n]]], m as [|[|[|m]]]; lia. Qed.

Lemma length_filter_impl {A} (P Q : A → Prop)
    `{!∀ x, Decision (P x)} `{!∀ x, Decision (Q x)} (l : list A) :
  (∀ x, x ∈ l → P x → Q x) →
  (length (filter P l) ≤ length (filter Q l))%nat.
Proof.
  induction l as [|x l IH]; intros HPQ; [done|].
  rewrite !filter_cons.
  assert (length (filter P l) ≤ length (filter Q l))%nat as Hl.
  { apply IH. intros y Hy. apply HPQ. by right. }
  destruct (decide (P x)) as [HP|HP], (decide (Q x)) as [HQ|HQ]; simpl; try lia.
  exfalso. apply HQ, HPQ; [left | done].
Qed.

Lemma contains_trans (s t v : str) :
  contains s t = true → contains t v = true → contains s v = true.
Proof.
  rewrite !contains_spec. intros (p1 & p2 & ->) (q1 & q2 & ->).
  exists (p1 ++ q1), (q2 ++ p2). by rewrite <- !app_assoc.
Qed.

(** X1: the score does not depend on the order in which the keywords are
    iterated. *)
Theorem keyword_relevance_permutation
    (lower : str → str) (text : str) (keywords keywords' : list str) :
  keywords ≡ₚ keywords' →
  keyword_relevance lower text keywords = keyword_relevance lower text keywords'.
Proof.
  intros Hperm. rewrite !keyword_relevance_hits.
  assert (length (filter (λ kw, contains (lower text) kw = true) keywords) =
          length (filter (λ kw, contains (lower text) kw = true) keywords')) as ->;
    [|done].
  apply Permutation_length. by rewrite Hperm.
Qed.

Lemma keyword_relevance_permutation_witness :
  keyword_relevance lower_latin1 (u "La IA y el NLP") [u "ia"; u "jazz"; u "nlp"] =
  keyword_relevance lower_latin1 (u "La IA y el NLP") [u "nlp"; u "ia"; u "jazz"].
Proof.
  apply keyword_relevance_permutation.
  change ([u "ia"; u "jazz"] ++ [u "nlp"] ≡ₚ [u "nlp"] ++ [u "ia"; u "jazz"]).
  apply Permutation_app_comm.
Defined.

(** X2: the score is 0 exactly when no keyword of the list occurs in the
    lower-cased text; in particular an empty keyword list scores 0. *)
Theorem keyword_relevance_zero_iff
    (lower : str → str) (text : str) (keywords : list str) :
  keyword_relevance lower text keywords = 0 ↔
  ∀ kw, kw ∈ keywords → contains (lower text) kw = false.
Proof.
  rewrite keyword_relevance_hits. split.
  - intros H0 kw Hkw. destruct (contains (lower text) kw) eqn:E; [|done].
    assert (kw ∈ filter (λ kw, contains (lower text) kw = true) keywords) as Hin.
    { by apply list_elem_of_filter. }
    destruct (filter _ keywords) as [|? [|? [|? ?]]]; simpl in H0; try done.
    by apply not_elem_of_nil in Hin.
  - intros Hnone.
    assert (filter (λ kw, contains (lower text) kw = true) keywords = []) as ->; [|done].
    induction keywords as [|kw keywords IH]; [done|].
    rewrite filter_cons, decide_False.
    + apply IH. intros kw' Hkw'. apply Hnone. by right.
    + rewrite (Hnone kw); [done | left].
Qed.

Lemma keyword_relevance_zero_iff_witness :
  keyword_relevance lower_latin1 (u "El Jazz") [u "nlp"; u "ia"] = 0.
Proof.
  apply (proj2 (keyword_relevance_zero_iff lower_latin1 (u "El Jazz") [u "nlp"; u "ia"])).
  intros kw Hkw. rewrite !elem_of_cons, elem_of_nil in Hkw.
  destruct Hkw as [->|[->|[]]]; vm_compute; reflexivity.
Defined.

(** X3: a keyword list is counted entry by entry: a keyword that occurs
    in the text and is listed [n] times contributes [n] hits. *)
Theorem keyword_relevance_counts_repeats
    (lower : str → str) (text kw : str) (n : nat) :
  contains (lower text) kw = true →
  keyword_relevance lower text (replicate n kw) =
  match n with 0%nat => 0 | 1%nat => 3 | 2%nat => 4 | _ => 5 end.
Proof.
  intros Hkw. rewrite keyword_relevance_hits.
  assert (filter (λ kw, contains (lower text) kw = true) (replicate n kw)
          = replicate n kw) as ->.
  { induction n as [|n IH]; [done|]. simpl. rewrite filter_cons, IH.
    by rewrite decide_True. }
  by rewrite length_replicate.
Qed.

Lemma keyword_relevance_counts_repeats_witness :
  keyword_relevance lower_latin1 (u "El Jazz") (replicate 2 (u "jazz")) = 4.
Proof.
  apply (keyword_relevance_counts_repeats lower_latin1 (u "El Jazz") (u "jazz") 2).
  vm_compute. reflexivity.
Defined.

(** X4: a larger keyword set never scores lower. *)
Theorem keyword_relevance_subset_mono
    (lower : str → str) (text : str) (keywords keywords' : gset str) :
  keywords ⊆ keywords' →
  keyword_relevance lower text (elements keywords) ≤
  keyword_relevance lower text (elements keywords').
Proof.
  intros Hsub. rewrite !keyword_relevance_hits, <- !size_matching_keywords.
  apply hits_score_mono, subseteq_size. unfold matching_keywords.
  intros kw. rewrite !elem_of_filter. intros [? ?]. auto.
Qed.

Lemma keyword_relevance_subset_mono_witness :
  keyword_relevance lower_latin1 (u "La IA y el NLP") (elements ({[ u "ia" ]} : gset str)) ≤
  keyword_relevance lower_latin1 (u "La IA y el NLP")
    (elements ({[ u "ia"; u "nlp" ]} : gset str)).
Proof.
  apply keyword_relevance_subset_mono. apply union_subseteq_l.
Defined.

(** X5: a text whose lower-cased form contains the lower-cased form of
    another text scores at least as much as that text, for every keyword
    list. *)
Theorem keyword_relevance_supertext_mono
    (lower : str → str) (text text' : str) (keywords : list str) :
  contains (lower text') (lower text) = true →
  keyword_relevance lower text keywords ≤ keyword_relevance lower text' keywords.
Proof.
  intros Hsub. rewrite !keyword_relevance_hits.
  apply hits_score_mono, length_filter_impl.
  intros kw _ Hkw. by apply contains_trans with (lower text).
Qed.

Lemma keyword_relevance_supertext_mono_witness :
  keyword_relevance lower_latin1 (u "las emisiones") [u "emisiones"; u "gases"] ≤
  keyword_relevance lower_latin1 (u "Aumenta LAS EMISIONES de gases")
    [u "emisiones"; u "gases"].
Proof.
  apply keyword_relevance_supertext_mono. vm_compute. reflexivity.
Defined.

(** ** Result evaluator *)

Lemma str_le_total (s t : str) : str_le s t ∨ str_le t s.
Proof.
  unfold str_le. revert t. induction s as [|a s IH]; intros [|b t]; simpl; auto.
  destruct (N.ltb_spec a b), (N.ltb_spec b a), (N.eqb_spec a b), (N.eqb_spec b a);
    auto; lia.
Qed.

Lemma coverage_text_covered (metadatas : list metadata) :
  coverage_text metadatas =
  match join (u ", ") (covered_topics metadatas) with
  | [] => u "sin datos"
  | c :: s => c :: s
  end.
Proof. unfold coverage_text, covered_topics. reflexivity. Qed.

Lemma elem_of_coverage_topics (metadatas : list metadata) (t : option str) :
  t ∈ coverage_topics metadatas ↔
  ∃ d, MdDict d ∈ metadatas ∧ d !! u "tema" = t.
Proof.
  unfold coverage_topics. rewrite elem_of_list_to_set, list_elem_of_omap. split.
  - intros ([d|v] & Hin & Hf); [|done]. injection Hf as <-. eauto.
  - intros (d & Hin & <-). exists (MdDict d). done.
Qed.

Lemma truthy_Some (x : option str) (t : str) :
  truthy x = Some t ↔ x = Some t ∧ t ≠ [].
Proof.
  destruct x as [[|c s]|]; simpl; split; try done.
  - by intros [[= <-] ?].
  - by intros [= <-].
  - by intros [[= <-] _].
  - by intros [? _].
Qed.

Lemma NoDup_omap_truthy (l : list (option str)) :
  NoDup l → NoDup (omap truthy l).
Proof.
  induction 1 as [|x l Hx Hl IH]; simpl; [constructor|].
  destruct (truthy x) as [t|] eqn:E; [|done].
  constructor; [|done]. rewrite list_elem_of_omap. intros (y & Hy & Hyt).
  apply truthy_Some in E as [-> _]. apply truthy_Some in Hyt as [-> _]. done.
Qed.

(** X6: the coverage line lists every non-empty topic of a dictionary
    metadata exactly once and in ascending order; documents whose
    metadata is not a dictionary, or has no topic or an empty one, add
    nothing. *)
Theorem covered_topics_sorted_distinct (metadatas : list metadata) :
  Sorted str_le (covered_topics metadatas) ∧
  NoDup (covered_topics metadatas) ∧
  ∀ t : str, t ∈ covered_topics metadatas ↔
             t ≠ [] ∧ ∃ d, MdDict d ∈ metadatas ∧ d !! u "tema" = Some t.
Proof.
  unfold covered_topics, sorted. split; [|split].
  - apply (@Sorted_merge_sort _ str_le _ str_le_total).
  - rewrite merge_sort_Permutation. apply NoDup_omap_truthy, NoDup_elements.
  - intros t. rewrite merge_sort_Permutation, list_elem_of_omap. split.
    + intros (x & Hx & Ht). apply truthy_Some in Ht as [-> Hne].
      split; [done|]. by apply elem_of_coverage_topics, elem_of_elements.
    + intros [Hne Hd]. exists (Some t). split.
      * by apply elem_of_elements, elem_of_coverage_topics.
      * by apply truthy_Some.
Qed.

Lemma covered_topics_nonempty (metadatas : list metadata) (t : str) :
  t ∈ covered_topics metadatas → t ≠ [].
Proof.
  unfold covered_topics, sorted. rewrite merge_sort_Permutation, list_elem_of_omap.
  intros (x & _ & Ht). by apply truthy_Some in Ht as [_ ?].
Qed.

Lemma join_cons_nonempty (sep x : str) (l : list str) :
  x ≠ [] → join sep (x :: l) ≠ [].
Proof.
  intros Hx. destruct l as [|y l]; simpl; [done|].
  destruct x; [done|]. done.
Qed.

(** X7: the coverage text is the placeholder when no topic is covered
    and the topics joined by a comma and a space otherwise. *)
Theorem coverage_text_cases (metadatas : list metadata) :
  (covered_topics metadatas = [] → coverage_text metadatas = u "sin datos") ∧
  (covered_topics metadatas ≠ [] →
   coverage_text metadatas = join (u ", ") (covered_topics metadatas)).
Proof.
  rewrite coverage_text_covered. split.
  - intros ->. reflexivity.
  - intros Hne. destruct (covered_topics metadatas) as [|t l] eqn:E; [done|].
    assert (t ≠ []) as Ht.
    { assert (t ∈ covered_topics metadatas) as Hin by (rewrite E; left).
      by apply covered_topics_nonempty in Hin. }
    pose proof (join_cons_nonempty (u ", ") t l Ht) as Hj.
    by destruct (join (u ", ") (t :: l)).
Qed.

Lemma coverage_text_cases_witness :
  coverage_text [MdOther PyNone; MdDict ∅] = u "sin datos" ∧
  coverage_text [MdDict {[ u "tema" := u "ia" ]}] =
    join (u ", ") (covered_topics [MdDict {[ u "tema" := u "ia" ]}]).
Proof.
  split.
  - apply (proj1 (coverage_text_cases [MdOther PyNone; MdDict ∅])).
    vm_compute. reflexivity.
  - apply (proj2 (coverage_text_cases [MdDict {[ u "tema" := u "ia" ]}])).
    vm_compute. discriminate.
Defined.

(** X8: the coverage text depends only on which metadata values occur in
    the response, not on their rank or on how often they occur. *)
Theorem coverage_text_same_members (metadatas metadatas' : list metadata) :
  (∀ md, md ∈ metadatas ↔ md ∈ metadatas') →
  coverage_text metadatas = coverage_text metadatas'.
Proof.
  intros Hsame. unfold coverage_text.
  assert (coverage_topics metadatas = coverage_topics metadatas') as ->; [|done].
  apply set_eq. intros t. rewrite !elem_of_coverage_topics.
  split; intros (d & Hd & <-); exists d; split; try done; by apply Hsame.
Qed.

Lemma coverage_text_same_members_witness :
  coverage_text [MdDict {[ u "tema" := u "ia" ]}; MdDict {[ u "tema" := u "deporte" ]}] =
  coverage_text [MdDict {[ u "tema" := u "deporte" ]}; MdDict {[ u "tema" := u "ia" ]};
                 MdDict {[ u "tema" := u "deporte" ]}].
Proof.
  apply coverage_text_same_members. intros md.
  rewrite !elem_of_cons, !elem_of_nil. tauto.
Defined.

Lemma any_keyword_in_score (lower : str → str) (doc : str) (keywords : gset str) :
  any_keyword_in lower doc keywords = true ↔
  keyword_relevance lower doc (elements keywords) ≠ 0.
Proof.
  unfold any_keyword_in. rewrite existsb_exists, keyword_relevance_hits. split.
  - intros (kw & Hin & Hkw).
    assert (kw ∈ filter (λ kw, contains (lower doc) kw = true) (elements keywords))
      as Hf by (apply list_elem_of_filter; split; [done | by apply list_elem_of_In]).
    destruct (filter _ (elements keywords)) as [|? [|? [|? ?]]]; simpl; try done.
    by apply not_elem_of_nil in Hf.
  - intros Hne.
    destruct (filter (λ kw, contains (lower doc) kw = true) (elements keywords))
      as [|kw l] eqn:E; [done|].
    assert (kw ∈ filter (λ kw, contains (lower doc) kw = true) (elements keywords))
      as Hf by (rewrite E; left).
    apply list_elem_of_filter in Hf as [Hkw Hin].
    exists kw. split; [by apply list_elem_of_In | done].
Qed.

Lemma last_report_lines (lower : str → str) (query : str) (keywords : gset str)
    (ids documents : list str) (metadatas : list metadata) (out : list str) :
  last (out ++ report_lines lower query keywords ids documents metadatas) =
  Some (note_line lower keywords documents).
Proof.
  unfold report_lines.
  change [u "Cobertura temática: " ++ coverage_text metadatas;
          note_line lower keywords documents]
    with ([u "Cobertura temática: " ++ coverage_text metadatas] ++
          [note_line lower keywords documents]).
  rewrite !app_assoc. apply last_snoc.
Qed.

(** X9: the note that closes a report agrees with the scores: it is the
    exact-match note when some returned document has a score other than
    0, and the semantic-only note when every returned document scores
    0. *)
Theorem note_agrees_with_scores
    (lower : str → str) (query : str) (keywords : gset str) (w : world)
    (ids documents : list str) (metadatas : list metadata) :
  ranked (r_ids (results_dict w)) = Some ids →
  ranked (r_documents (results_dict w)) = Some documents →
  ranked (r_metadatas (results_dict w)) = Some metadatas →
  ((∃ doc, doc ∈ documents ∧
           keyword_relevance lower doc (elements keywords) ≠ 0) →
   last (stdout (evaluate_results lower query keywords w).1)
   = Some note_exact_keyword_match) ∧
  ((∀ doc, doc ∈ documents →
           keyword_relevance lower doc (elements keywords) = 0) →
   last (stdout (evaluate_results lower query keywords w).1)
   = Some note_semantic_only).
Proof.
  intros Hids Hdocs Hmetas.
  rewrite evaluate_results_run, Hids, Hdocs, Hmetas. cbn [fst stdout].
  rewrite last_report_lines. unfold note_line. split.
  - intros (doc & Hin & Hscore).
    assert (existsb (λ doc, any_keyword_in lower doc keywords) documents = true)
      as ->; [|done].
    apply existsb_exists. exists doc. split; [by apply list_elem_of_In|].
    by apply any_keyword_in_score.
  - intros Hzero.
    assert (existsb (λ doc, any_keyword_in lower doc keywords) documents = false)
      as ->; [|done].
    apply not_true_is_false. rewrite existsb_exists. intros (doc & Hin & Hany).
    apply any_keyword_in_score in Hany. apply Hany, Hzero. by apply list_elem_of_In.
Qed.

Lemma note_agrees_with_scores_witness :
  last (stdout (evaluate_results lower_latin1 (u "q") ecology_keywords
                  (World [] (Response (Some [[u "a"]]) (Some [[u "Jazz"]])
                                      (Some [[MdOther PyNone]])))).1)
  = Some note_semantic_only ∧
  last (stdout (evaluate_results lower_latin1 (u "q") ecology_keywords
                  (World [] (Response (Some [[u "a"]]) (Some [[u "Emisiones"]])
                                      (Some [[MdOther PyNone]])))).1)
  = Some note_exact_keyword_match.
Proof.
  split.
  - refine (proj2 (note_agrees_with_scores lower_latin1 (u "q") ecology_keywords
      (World [] (Response (Some [[u "a"]]) (Some [[u "Jazz"]]) (Some [[MdOther PyNone]])))
      [u "a"] [u "Jazz"] [MdOther PyNone] _ _ _) _); try (vm_compute; reflexivity).
    intros doc Hdoc. apply list_elem_of_singleton in Hdoc as ->.
    vm_compute. reflexivity.
  - refine (proj1 (note_agrees_with_scores lower_latin1 (u "q") ecology_keywords
      (World [] (Response (Some [[u "a"]]) (Some [[u "Emisiones"]])
                          (Some [[MdOther PyNone]])))
      [u "a"] [u "Emisiones"] [MdOther PyNone] _ _ _) _); try (vm_compute; reflexivity).
    exists (u "Emisiones"). split; [left|]. vm_compute. discriminate.
Defined.

Lemma ranked_None {A} (field : option (list (list A))) :
  ranked field = None ↔ field = Some [].
Proof. by destruct field as [[|l ls]|]. Qed.



Lemma length_enumerate {A} (start : Z) (l : list A) :
  length (enumerate start l) = length l.
Proof. revert start. induction l as [|x l IH]; intros start; simpl; [done|]. by rewrite IH. Qed.

Lemma length_entry_lines (lower : str → str) (keywords : gset str)
    (entries : list (Z * (str * str * metadata))) :
  length (flat_map (entry_lines lower keywords) entries) = (4 * length entries)%nat.
Proof.
  induction entries as [|[idx [[a b] c]] entries IH]; [done|].
  cbn [flat_map entry_lines]. rewrite length_app, IH. simpl. lia.
Qed.

(** X11: a call that returns only adds lines to the output: five for the
    header, the coverage and the note, and four for each ranked entry,
    of which there are as many as the shortest of the three lists has
    elements. *)
Theorem evaluate_results_line_count
    (lower : str → str) (query : str) (keywords : gset str) (w : world)
    (ids documents : list str) (metadatas : list metadata) :
  ranked (r_ids (results_dict w)) = Some ids →
  ranked (r_documents (results_dict w)) = Some documents →
  ranked (r_metadatas (results_dict w)) = Some metadatas →
  ∃ out : list str,
    evaluate_results lower query keywords w =
      (World (stdout w ++ out) (results_dict w), Ok ()) ∧
    length out =
      (5 + 4 * (length ids `min` (length documents `min` length metadatas)))%nat.
Proof.
  intros Hids Hdocs Hmetas.
  exists (report_lines lower query keywords ids documents metadatas). split.
  - by rewrite evaluate_results_run, Hids, Hdocs, Hmetas.
  - unfold report_lines. rewrite !length_app, length_entry_lines, length_enumerate.
    unfold zip3. rewrite !length_zip. simpl. lia.
Qed.

Lemma evaluate_results_line_count_witness :
  ∃ out : list str,
    evaluate_results lower_latin1 (u "q") ecology_keywords
      (World [] (Response (Some [[u "a"; u "b"]]) (Some [[u "x"]]) None)) =
      (World ([] ++ out) (Response (Some [[u "a"; u "b"]]) (Some [[u "x"]]) None), Ok ()) ∧
    length out = (5 + 4 * (2 `min` (1 `min` 0)))%nat.
Proof.
  apply (evaluate_results_line_count lower_latin1 (u "q") ecology_keywords
    (World [] (Response (Some [[u "a"; u "b"]]) (Some [[u "x"]]) None))
    [u "a"; u "b"] [u "x"] []); vm_compute; reflexivity.
Defined.

Lemma drop_entry_lines (lower : str → str) (keywords : gset str)
    (entries : list (str * str * metadata)) (start : Z) (i : nat)
    (entry : str * str * metadata) :
  entries !! i = Some entry →
  take 4 (drop (4 * i) (flat_map (entry_lines lower keywords) (enumerate start entries))) =
  entry_lines lower keywords (start + Z.of_nat i, entry).
Proof.
  revert start i. induction entries as [|e entries IH]; intros start i Hi; [done|].
  destruct i as [|i].
  - injection Hi as ->. rewrite Z.add_0_r. by destruct entry as [[? ?] ?].
  - replace (4 * S i)%nat with (4 + 4 * i)%nat by lia.
    cbn [enumerate flat_map]. rewrite <- drop_drop.
    rewrite drop_app_length' by (by destruct e as [[? ?] ?]).
    rewrite (IH (start + 1) i Hi). f_equal. f_equal. lia.
Qed.

(** X12: the block of a ranked entry: the entry at position [i] of the
    zipped lists is printed as four lines, after the header and the
    blocks before it, with rank [i + 1], its id, its topic, its text and
    the score of its text. *)
Theorem evaluate_results_entry_block
    (lower : str → str) (query : str) (keywords : gset str) (w : world)
    (ids documents : list str) (metadatas : list metadata)
    (i : nat) (doc_id doc_text : str) (md : metadata) :
  ranked (r_ids (results_dict w)) = Some ids →
  ranked (r_documents (results_dict w)) = Some documents →
  ranked (r_metadatas (results_dict w)) = Some metadatas →
  zip3 ids documents metadatas !! i = Some (doc_id, doc_text, md) →
  take 4 (drop (length (stdout w) + 3 + 4 * i)
            (stdout (evaluate_results lower query keywords w).1)) =
  [ u "#" ++ str_of_Z (Z.of_nat i + 1) ++ u " -> ID: " ++ doc_id;
    u "       Tema: " ++ format (topic_of md);
    u "       Texto: " ++ doc_text;
    u "       Relevancia aparente (0-5): " ++
      str_of_Z (keyword_relevance lower doc_text (elements keywords)) ].
Proof.
  intros Hids Hdocs Hmetas Hi.
  rewrite evaluate_results_run, Hids, Hdocs, Hmetas. cbn [fst stdout].
  rewrite <- Nat.add_assoc, drop_app_add. unfold report_lines.
  rewrite (drop_app_add' (header_lines query) _ 3) by reflexivity.
  pose proof (lookup_lt_Some _ _ _ Hi) as Hlt.
  rewrite drop_app_le
    by (rewrite length_entry_lines, length_enumerate; lia).
  rewrite take_app_le.
  2:{ rewrite length_drop, length_entry_lines, length_enumerate. lia. }
  rewrite (drop_entry_lines lower keywords _ 1 i _ Hi).
  cbn [entry_lines]. by rewrite (Z.add_comm 1).
Qed.

Lemma evaluate_results_entry_block_witness :
  take 4 (drop (length ([] : list str) + 3 + 4 * 1)
            (stdout (evaluate_results lower_latin1 (u "q") ecology_keywords
               (World [] (Response (Some [[u "a"; u "b"]]) (Some [[u "x"; u "y"]])
                                   (Some [[MdDict ∅; MdOther PyNone]])))).1)) =
  [ u "#" ++ str_of_Z (Z.of_nat 1 + 1) ++ u " -> ID: " ++ u "b";
    u "       Tema: " ++ format (topic_of (MdOther PyNone));
    u "       Texto: " ++ u "y";
    u "       Relevancia aparente (0-5): " ++
      str_of_Z (keyword_relevance lower_latin1 (u "y") (elements ecology_keywords)) ].
Proof.
  apply (evaluate_results_entry_block lower_latin1 (u "q") ecology_keywords
    (World [] (Response (Some [[u "a"; u "b"]]) (Some [[u "x"; u "y"]])
                        (Some [[MdDict ∅; MdOther PyNone]])))
    [u "a"; u "b"] [u "x"; u "y"] [MdDict ∅; MdOther PyNone]
    1 (u "b") (u "y") (MdOther PyNone)); vm_compute; reflexivity.
Defined.

(** ** Config resolver *)

Lemma lstrip_head (s : str) (c : N) :
  head (lstrip s) = Some c → isspace c = false.
Proof.
  induction s as [|a s IH]; [done|]. simpl.
  destruct (isspace a) eqn:E; [done|]. by intros [= <-].
Qed.

Lemma lstrip_id (s : str) :
  (∀ c, head s = Some c → isspace c = false) → lstrip s = s.
Proof.
  destruct s as [|a s]; [done|]. intros H. simpl. by rewrite (H a).
Qed.

Lemma lstrip_suffix (s : str) : ∃ pre, s = pre ++ lstrip s.
Proof.
  induction s as [|a s [pre IH]]; [by exists []|]. simpl.
  destruct (isspace a).
  - exists (a :: pre). simpl. by rewrite <- IH.
  - by exists [].
Qed.

Lemma rstrip_prefix (s : str) : ∃ post, s = rstrip s ++ post.
Proof.
  unfold rstrip. destruct (lstrip_suffix (reverse s)) as [pre H].
  exists (reverse pre). rewrite <- reverse_app, <- H. by rewrite reverse_involutive.
Qed.

Lemma rstrip_last (s : str) (c : N) :
  last (rstrip s) = Some c → isspace c = false.
Proof. unfold rstrip. rewrite last_reverse. apply lstrip_head. Qed.

Lemma rstrip_head (s : str) (c : N) :
  head (rstrip s) = Some c → head s = Some c.
Proof.
  destruct (rstrip_prefix s) as [post H]. intros Hc. rewrite H.
  destruct (rstrip s); [done|]. exact Hc.
Qed.

Lemma rstrip_id (s : str) :
  (∀ c, last s = Some c → isspace c = false) → rstrip s = s.
Proof.
  intros H. unfold rstrip. rewrite lstrip_id.
  - apply reverse_involutive.
  - intros c. rewrite head_reverse. apply H.
Qed.

Lemma strip_trimmed (s : str) : trimmed (strip s).
Proof.
  unfold strip. split.
  - intros c Hc. apply rstrip_head in Hc. by apply lstrip_head in Hc.
  - apply rstrip_last.
Qed.

Lemma strip_id (s : str) : trimmed s → strip s = s.
Proof. intros [Hh Hl]. unfold strip. rewrite (lstrip_id s Hh). by apply rstrip_id. Qed.

Lemma strip_infix (s : str) : ∃ pre post, s = pre ++ strip s ++ post.
Proof.
  unfold strip. destruct (lstrip_suffix s) as [pre H].
  destruct (rstrip_prefix (lstrip s)) as [post H'].
  exists pre, post. by rewrite <- H', <- H.
Qed.

Lemma elem_of_strip (s : str) (c : N) : c ∈ strip s → c ∈ s.
Proof.
  destruct (strip_infix s) as (pre & post & H). intros Hc.
  rewrite H, !elem_of_app. auto.
Qed.

Lemma strip_head (s : str) (c : N) :
  (∀ c', head s = Some c' → isspace c' = false) →
  head (strip s) = Some c → head s = Some c.
Proof. intros Hs. unfold strip. rewrite (lstrip_id s Hs). apply rstrip_head. Qed.

Lemma splitlines_from_no_linebreak (n : nat) (s cur : str) (line : str) (c : N) :
  (length s ≤ n)%nat →
  (∀ c', c' ∈ cur → is_linebreak c' = false) →
  line ∈ splitlines_from cur s → c ∈ line → is_linebreak c = false.
Proof.
  revert s cur. induction n as [|n IH]; intros s cur Hlen Hcur Hline Hc.
  - destruct s; [|simpl in Hlen; lia]. simpl in Hline.
    destruct cur as [|a cur]; [by apply not_elem_of_nil in Hline|].
    apply list_elem_of_singleton in Hline as ->.
    apply Hcur. by apply elem_of_reverse.
  - destruct s as [|a s].
    { simpl in Hline. destruct cur as [|b cur]; [by apply not_elem_of_nil in Hline|].
      apply list_elem_of_singleton in Hline as ->.
      apply Hcur. by apply elem_of_reverse. }
    simpl in Hlen. cbn [splitlines_from] in Hline.
    destruct (is_linebreak a) eqn:Ea.
    + apply elem_of_cons in Hline as [->|Hline].
      { apply Hcur. by apply elem_of_reverse. }
      destruct s as [|b s].
      * by apply not_elem_of_nil in Hline.
      * destruct ((a =? 13)%N && (b =? 10)%N).
        -- apply (IH s []); [simpl in Hlen; lia | by intros ? ?%not_elem_of_nil | done..].
        -- apply (IH (b :: s) []); [simpl in *; lia | by intros ? ?%not_elem_of_nil | done..].
    + apply (IH s (a :: cur)); [lia | | done..].
      intros c' [->|?]%elem_of_cons; auto.
Qed.

Lemma splitlines_no_linebreak (s line : str) (c : N) :
  line ∈ splitlines s → c ∈ line → is_linebreak c = false.
Proof.
  apply (splitlines_from_no_linebreak (length s) s []); [done|].
  by intros ? ?%not_elem_of_nil.
Qed.

Lemma spec_line_entry_Some (line k v : str) :
  spec_line_entry line = Some (k, v) ↔
  ∃ a b, strip line = a ++ 61%N :: b ∧ (61%N ∉ a) ∧
         (head (strip line) ≠ Some 35%N) ∧ k = strip a ∧ v = strip b.
Proof.
  unfold spec_line_entry. split.
  - case_bool_decide as Hd; [done|].
    destruct (break_at 61 (strip line)) as [[a b]|] eqn:E; [|done].
    simpl. intros [= <- <-]. apply break_at_spec in E as [Heq Ha].
    exists a, b. repeat split; try done. intros Hh. apply Hd. by right.
  - intros (a & b & Heq & Ha & Hh & -> & ->).
    rewrite bool_decide_eq_false_2.
    + rewrite (proj2 (break_at_spec 61 (strip line) a b)); done.
    + intros [Hnil|?]; [|done]. rewrite Hnil in Heq. by destruct a.
Qed.

Lemma spec_line_entry_writable (line k v : str) :
  (∀ c, c ∈ line → is_linebreak c = false) →
  spec_line_entry line = Some (k, v) → writable k v.
Proof.
  intros Hline (a & b & Heq & Ha & Hh & -> & ->)%spec_line_entry_Some.
  assert (∀ c, c ∈ a ++ b → c ∈ line) as Hsub.
  { intros c Hc. apply elem_of_strip. rewrite Heq.
    rewrite elem_of_app in Hc. rewrite elem_of_app, elem_of_cons. tauto. }
  repeat split; try apply strip_trimmed.
  - intros H61. by apply elem_of_strip in H61.
  - intros Hk. destruct a as [|c a]; [done|].
    assert (head (c :: a) = Some 35%N) as [= ->].
    { apply strip_head; [|done]. intros c' [= <-].
      apply (proj1 (strip_trimmed line)). by rewrite Heq. }
    by rewrite Heq in Hh.
  - intros c Hc. apply Hline, Hsub.
    rewrite elem_of_app in Hc. rewrite elem_of_app.
    destruct Hc as [?%elem_of_strip|?%elem_of_strip]; auto.
Qed.

Lemma foldl_spec_add_line_invariant (P : gmap str str → Prop)
    (lines : list str) (m : gmap str str) :
  P m →
  (∀ m' line, line ∈ lines → P m' → P (spec_add_line m' line)) →
  P (foldl spec_add_line m lines).
Proof.
  revert m. induction lines as [|line lines IH]; intros m Hm Hstep; [done|].
  simpl. apply IH.
  - apply Hstep; [left | done].
  - intros m' line' Hin. apply Hstep. by right.
Qed.

(** X13: every entry of a loaded mapping has a key and a value without
    white space at either end and without line breaks, and a key that
    contains no [=] and does not begin with [#]. *)
Theorem load_env_file_entries_writable
    (content : str) (env_values : gmap str str) (k v : str) :
  load_env_file (Some content) = Ok env_values →
  env_values !! k = Some v →
  writable k v.
Proof.
  cbn [load_env_file]. rewrite load_env_lines_spec. intros [= <-]. revert k v.
  apply (foldl_spec_add_line_invariant
           (λ m, ∀ k v, m !! k = Some v → writable k v)); [done|].
  intros m line Hline Hm k v. unfold spec_add_line.
  destruct (spec_line_entry line) as [[k' v']|] eqn:E; [|apply Hm].
  rewrite lookup_insert. case_decide as Hk; [|apply Hm].
  subst k'. intros [= <-].
  apply (spec_line_entry_writable line); [|done].
  intros c. by apply splitlines_no_linebreak with content.
Qed.

Lemma load_env_file_entries_writable_witness :
  writable (u "KEY") (u "a = b # c").
Proof.
  apply (load_env_file_entries_writable
           (u "  KEY =  a = b # c  " ++ newline ++ u "# KEY=x")
           {[ u "KEY" := u "a = b # c" ]}); vm_compute; reflexivity.
Defined.

Lemma foldl_spec_add_line_other (lines : list str) (m : gmap str str) (k : str) :
  (∀ line v, line ∈ lines → spec_line_entry line ≠ Some (k, v)) →
  foldl spec_add_line m lines !! k = m !! k.
Proof.
  revert m. induction lines as [|line lines IH]; intros m Hnone; [done|].
  simpl. rewrite IH by (intros line' v' Hin; apply Hnone; by right).
  unfold spec_add_line.
  destruct (spec_line_entry line) as [[k' v']|] eqn:E; [|done].
  apply lookup_insert_ne. intros ->. by apply (Hnone line v'); [left|].
Qed.

(** X14: the value of a key is the one given by the last line that
    defines the key, and a key that no line defines is absent. *)
Theorem load_env_file_lookup
    (content : str) (env_values : gmap str str) (k : str) :
  load_env_file (Some content) = Ok env_values →
  (∀ before line after v,
     splitlines content = before ++ line :: after →
     spec_line_entry line = Some (k, v) →
     (∀ line' v', line' ∈ after → spec_line_entry line' ≠ Some (k, v')) →
     env_values !! k = Some v) ∧
  ((∀ line v, line ∈ splitlines content → spec_line_entry line ≠ Some (k, v)) →
   env_values !! k = None).
Proof.
  cbn [load_env_file]. rewrite load_env_lines_spec. intros [= <-].
  unfold spec_env_file. split.
  - intros before line after v -> Hline Hafter.
    rewrite foldl_app. cbn [foldl].
    rewrite foldl_spec_add_line_other by done.
    unfold spec_add_line at 1. rewrite Hline. apply lookup_insert_eq.
  - intros Hnone. by rewrite foldl_spec_add_line_other.
Qed.

Lemma load_env_file_lookup_witness :
  ({[ u "A" := u "2"; u "B" := u "x" ]} : gmap str str) !! u "A" = Some (u "2") ∧
  ({[ u "A" := u "2"; u "B" := u "x" ]} : gmap str str) !! u "C" = None.
Proof.
  split.
  - refine (proj1 (load_env_file_lookup
      (u "A=1" ++ newline ++ u "A=2" ++ newline ++ u "B=x")
      {[ u "A" := u "2"; u "B" := u "x" ]} (u "A") _)
      [u "A=1"] (u "A=2") [u "B=x"] (u "2") _ _ _); try (vm_compute; reflexivity).
    intros line' v' ->%list_elem_of_singleton. vm_compute. discriminate.
  - refine (proj2 (load_env_file_lookup
      (u "A=1" ++ newline ++ u "A=2" ++ newline ++ u "B=x")
      {[ u "A" := u "2"; u "B" := u "x" ]} (u "C") _) _); [vm_compute; reflexivity|].
    intros line v Hin.
    assert (line ∈ [u "A=1"; u "A=2"; u "B=x"]) as Hin' by exact Hin.
    rewrite !elem_of_cons, elem_of_nil in Hin'.
    destruct Hin' as [->|[->|[->|[]]]]; vm_compute; discriminate.
Defined.

Lemma splitlines_from_line (line cur rest : str) :
  (∀ c, c ∈ line → is_linebreak c = false) →
  splitlines_from cur (line ++ rest) = splitlines_from (reverse line ++ cur) rest.
Proof.
  revert cur. induction line as [|a line IH]; intros cur Hline; [done|].
  cbn [app splitlines_from]. rewrite (Hline a) by left.
  rewrite IH by (intros c Hc; apply Hline; by right).
  by rewrite reverse_cons, <- app_assoc.
Qed.

Lemma splitlines_join (lines : list str) :
  Forall (λ line, line ≠ [] ∧ ∀ c, c ∈ line → is_linebreak c = false) lines →
  splitlines (join newline lines) = lines.
Proof.
  unfold splitlines. induction 1 as [|line lines [Hne Hline] Hlines IH]; [done|].
  destruct lines as [|line' lines].
  - cbn [join]. rewrite <- (app_nil_r line) at 1.
    rewrite splitlines_from_line, app_nil_r by done. cbn [splitlines_from].
    destruct (reverse line) eqn:E.
    + apply (f_equal reverse) in E. rewrite reverse_involutive in E. done.
    + by rewrite <- E, reverse_involutive.
  - change (join newline (line :: line' :: lines))
      with (line ++ newline ++ join newline (line' :: lines)).
    rewrite splitlines_from_line, app_nil_r by done.
    change (newline ++ join newline (line' :: lines))
      with (10%N :: join newline (line' :: lines)).
    cbn [splitlines_from]. change (is_linebreak 10) with true. cbn iota.
    rewrite reverse_involutive. f_equal.
    change ((10 =? 13)%N) with false. cbn [andb].
    by destruct (join newline (line' :: lines)).
Qed.

Lemma trimmed_line (k v : str) :
  trimmed k → trimmed v → trimmed (k ++ 61%N :: v).
Proof.
  intros [Hk _] [_ Hv]. split.
  - intros c. destruct k as [|a k]; simpl; [by intros [= <-]|]. apply Hk.
  - intros c. rewrite last_app, last_cons.
    destruct (last v) as [b|]; [apply Hv | by intros [= <-]].
Qed.

Lemma spec_line_entry_render (k v : str) :
  writable k v → spec_line_entry (k ++ u "=" ++ v) = Some (k, v).
Proof.
  intros (Hk & Hv & H61 & H35 & _). change (u "=" ++ v) with (61%N :: v).
  apply spec_line_entry_Some. exists k, v.
  rewrite (strip_id (k ++ 61%N :: v)) by by apply trimmed_line.
  rewrite !strip_id by done. repeat split; try done.
  destruct k as [|a k]; [done|]. exact H35.
Qed.

(** X15: round trip of the file format: a file written with one line
    [key=value] for each pair of a list of writable pairs is loaded as
    the mapping obtained by inserting the pairs in order. *)
Theorem load_env_file_render (pairs : list (str * str)) :
  Forall (λ '(k, v), writable k v) pairs →
  load_env_file (Some (render_env pairs)) =
  Ok (foldl (λ m '(k, v), <[k := v]> m) ∅ pairs).
Proof.
  intros Hpairs. cbn [load_env_file]. rewrite load_env_lines_spec. f_equal.
  unfold render_env. rewrite splitlines_join.
  - generalize (∅ : gmap str str).
    induction Hpairs as [|[k v] pairs Hkv _ IH]; intros m; [done|].
    cbn [fmap list_fmap foldl]. rewrite <- IH. f_equal.
    unfold spec_add_line. by rewrite spec_line_entry_render.
  - apply Forall_fmap. eapply Forall_impl; [exact Hpairs|].
    intros [k v] (_ & _ & _ & _ & Hlb). split.
    + by destruct k.
    + intros c Hc. change (u "=" ++ v) with (61%N :: v) in Hc.
      rewrite elem_of_app, elem_of_cons in Hc.
      destruct Hc as [?|[->|?]]; [|reflexivity|]; apply Hlb; rewrite elem_of_app; auto.
Qed.

Lemma writable_by_parsing (line k v : str) :
  Forall (λ c, is_linebreak c = false) line →
  spec_line_entry line = Some (k, v) → writable k v.
Proof.
  intros Hline. apply spec_line_entry_writable. by apply Forall_forall.
Qed.

Lemma load_env_file_render_witness :
  load_env_file (Some (render_env [(u "HOST", u "db"); (u "PORT", u "9000");
                                   (u "HOST", u "a=b #c")])) =
  Ok (foldl (λ m '(k, v), <[k := v]> m) ∅
        [(u "HOST", u "db"); (u "PORT", u "9000"); (u "HOST", u "a=b #c")]).
Proof.
  apply load_env_file_render. repeat apply Forall_cons_2; [| | |apply Forall_nil_2].
  - apply (writable_by_parsing (u "HOST=db")); [compute_done | vm_compute; reflexivity].
  - apply (writable_by_parsing (u "PORT=9000")); [compute_done | vm_compute; reflexivity].
  - apply (writable_by_parsing (u "HOST=a=b #c")); [compute_done | vm_compute; reflexivity].
Defined.

(** ** Query runner: configuration *)



(** X17: the defaults: when neither the environment (where a variable
    may be unset or empty) nor the file defines the host and the port, a
    run connects to [localhost] and port 8000 and prints no diagnostic,
    provided [int] reads the text 8000 as that number. *)
Theorem run_config_defaults
    (int : str → option Z) (environ env_file_values : gmap str str)
    (env_file : option str) (w : world) :
  int (u "8000") = Some 8000 →
  load_env_file env_file = Ok env_file_values →
  (environ !! u "CHROMA_HOST" = None ∨ environ !! u "CHROMA_HOST" = Some []) →
  (environ !! u "CHROMA_PORT" = None ∨ environ !! u "CHROMA_PORT" = Some []) →
  env_file_values !! u "CHROMA_HOST" = None →
  env_file_values !! u "CHROMA_PORT" = None →
  run_config int environ env_file w = (w, Ok (u "localhost", 8000)).
Proof.
  intros Hint Hload Hh Hp Hfh Hfp. unfold run_config. rewrite Hload.
  unfold resolve_setting. rewrite Hfh, Hfp.
  change (str_of_Z DEFAULT_PORT) with (u "8000").
  assert (or_else (environ !! u "CHROMA_PORT") (default (u "8000") None) = u "8000") as ->.
  { by destruct Hp as [-> | ->]. }
  assert (or_else (environ !! u "CHROMA_HOST") (default DEFAULT_HOST None)
          = u "localhost") as ->.
  { by destruct Hh as [-> | ->]. }
  by rewrite Hint.
Qed.

Lemma run_config_defaults_witness :
  run_config int_ascii {[ u "CHROMA_PORT" := [] ]} (Some (u "# no settings"))
    (World [] (Response None None None)) =
  (World [] (Response None None None), Ok (u "localhost", 8000)).
Proof.
  apply (run_config_defaults int_ascii _ ∅); try (vm_compute; reflexivity).
  - left. vm_compute. reflexivity.
  - right. vm_compute. reflexivity.
Defined.

(** ** Query runner: the whole run *)

Section RunProperties.
Context (lower : str → str) (int : str → option Z).
Context (store_raises : list store_call → store_call → option str).
Context (store_response : list store_call → list str → Z → response).

Local Abbreviation follows_store := (follows store_raises store_response).

Lemma follows_ret {A} (a : A) : follows_store [] (mret a).
Proof. intros s. exists []. by rewrite app_nil_r. Qed.

Lemma follows_bind {A B} (plan1 plan2 : list store_call) (m : R A) (k : A → R B) :
  follows_store plan1 m →
  (∀ a, (∃ s, (m s).2 = Done a) → follows_store plan2 (k a)) →
  follows_store (plan1 ++ plan2) (m ≫= k).
Proof.
  intros Hm Hk s. destruct (Hm s) as (made1 & Hcalls1 & Hpre1 & Hout1).
  unfold mbind, R_bind. destruct (m s) as [s1 [a|f]] eqn:Ems; cbn [fst snd] in *.
  - subst made1.
    assert (∃ s, (m s).2 = Done a) as Ha by (exists s; by rewrite Ems).
    destruct (Hk a Ha s1) as (made2 & Hcalls2 & Hpre2 & Hout2).
    exists (plan1 ++ made2). rewrite Hcalls2, Hcalls1, <- app_assoc.
    split; [done|]. split; [by apply prefix_app|].
    destruct ((k a s1).2) as [b|[e|message]].
    + by subst made2.
    + destruct Hout2 as (before & texts & n & -> & -> & Hnone & Hbad).
      exists (plan1 ++ before), texts, n. rewrite <- !app_assoc.
      rewrite Hcalls1, <- app_assoc in Hnone, Hbad. done.
    + destruct Hout2 as (before & c & -> & Hraise).
      exists (plan1 ++ before), c. rewrite <- !app_assoc.
      rewrite Hcalls1, <- app_assoc in Hraise. done.
  - exists made1. split; [done|]. split; [by apply prefix_app_r|]. done.
Qed.

Lemma follows_store_do (c : store_call) :
  follows_store [c] (store_do store_raises c).
Proof.
  intros s. exists [c]. unfold store_do.
  destruct (store_raises (rs_calls s) c) as [message|] eqn:E; cbn [fst snd rs_calls].
  - split; [done|]. split; [done|]. exists [], c. by rewrite app_nil_r.
  - done.
Qed.

Lemma follows_print (line : str) : follows_store [] (run_M (print line)).
Proof. intros s. exists []. by rewrite app_nil_r. Qed.

Lemma follows_run_query (query_data : str * gset str) :
  follows_store [CollectionQuery [query_data.1] 3]
    (run_query lower store_raises store_response query_data).
Proof.
  destruct query_data as [text keywords]. intros s.
  exists [CollectionQuery [text] 3].
  unfold run_query, collection_query, mbind, R_bind. cbn [fst].
  destruct (store_raises (rs_calls s) (CollectionQuery [text] 3)) as [message|] eqn:E.
  - cbn [fst snd rs_calls]. split; [done|]. split; [done|].
    exists [], (CollectionQuery [text] 3). by rewrite app_nil_r.
  - unfold with_results, run_M. cbn [rs_world rs_calls].
    rewrite evaluate_results_run. cbn [results_dict].
    set (r := store_response (rs_calls s) [text] 3).
    destruct (ranked (r_ids r)) as [ids|] eqn:Ei;
      [destruct (ranked (r_documents r)) as [docs|] eqn:Ed;
       [destruct (ranked (r_metadatas r)) as [mds|] eqn:Em|]|];
      cbn [fst snd rs_calls]; (split; [done|]); (split; [done|]); [done|..];
      exists [], [text], 3; rewrite app_nil_r; fold r;
      (repeat split; try done); unfold bad_response;
      rewrite <- !ranked_None; auto.
Qed.

Lemma follows_queries (qs : list (str * gset str)) :
  follows_store ((λ query_data : str * gset str, CollectionQuery [query_data.1] 3) <$> qs)
    (for_each_R qs (run_query lower store_raises store_response)).
Proof.
  induction qs as [|q qs IH]; [apply follows_ret|].
  cbn [fmap list_fmap for_each_R].
  apply (follows_bind [_] _); [apply follows_run_query | intros _ _; apply IH].
Qed.

Lemma run_config_returns (environ : gmap str str) (env_file : option str) :
  ∃ host port, ∀ w, ∃ out,
    run_config int environ env_file w =
    (World (stdout w ++ out) (results_dict w), Ok (host, port)).
Proof.
  unfold run_config. destruct (load_env_file_total env_file) as [fv ->].
  destruct (int _) as [port|]; eexists _, _; intros w.
  - exists []. rewrite app_nil_r. by destruct w.
  - eexists [_]. rewrite bind_print. reflexivity.
Qed.

Lemma follows_run (reset : bool) (environ : gmap str str) (env_file : option str) :
  ∃ host port,
    (∀ w, (run_config int environ env_file w).2 = Ok (host, port)) ∧
    follows_store (planned_calls reset host port)
      (run lower int store_raises store_response reset environ env_file).
Proof.
  destruct (run_config_returns environ env_file) as (host & port & Hconfig).
  exists host, port. split.
  { intros w. destruct (Hconfig w) as [out ->]. done. }
  unfold run.
  apply (follows_bind [] (planned_calls reset host port)).
  { intros s. exists []. rewrite app_nil_r. unfold run_M.
    destruct (Hconfig (rs_world s)) as [out ->]. done. }
  intros [host' port'] [s Hs]. unfold run_M in Hs.
  destruct (Hconfig (rs_world s)) as [out Hout]. rewrite Hout in Hs.
  injection Hs as <- <-.
  unfold planned_calls, build_client.
  apply follows_bind; [apply follows_store_do | intros _ _].
  apply follows_bind.
  { destruct reset; [|apply follows_ret].
    apply (follows_bind [] [ClientReset]); [apply follows_print | intros _ _].
    apply follows_store_do. }
  intros _ _.
  apply (follows_bind [_] (_ :: _)); [apply follows_store_do | intros _ _].
  apply (follows_bind [_] _); [apply follows_store_do | intros _ _].
  apply (follows_bind [] _); [apply follows_print | intros _ _].
  pose proof (follows_bind _ [] _ _ (follows_queries queries)
                (λ _ _, follows_print
                   (newline ++
                    u "Evaluación completada. Revisa los resultados anteriores para un análisis heurístico.")))
    as Hloop.
  rewrite app_nil_r in Hloop. exact Hloop.
Qed.




(** X18: whatever the store does, the calls of a run are made in the
    order of the plan: the client is built with reset allowed and
    telemetry off, the store is reset only when asked and before
    anything else, the collection is opened and seeded, and the three
    queries follow, each for three results; a run that returns has made
    exactly these calls. *)
Theorem run_follows_plan
    (reset : bool) (environ : gmap str str) (env_file : option str) (s : run_state) :
  ∃ host port made,
    (run_config int environ env_file (rs_world s)).2 = Ok (host, port) ∧
    rs_calls (run lower int store_raises store_response reset environ env_file s).1
      = rs_calls s ++ made ∧
    made `prefix_of` planned_calls reset host port ∧
    ((∃ a, (run lower int store_raises store_response reset environ env_file s).2
           = Done a) →
     made = planned_calls reset host port).
Proof.
  destruct (follows_run reset environ env_file) as (host & port & Hconfig & Hrun).
  destruct (Hrun s) as (made & Hcalls & Hpre & Hout).
  exists host, port, made. repeat split; try done.
  intros [a Ha]. by rewrite Ha in Hout.
Qed.



(** X21: the calls made respect the dependencies between them: without
    the flag the store is never reset, with it the seeding comes after
    the reset, and every query comes after the seeding. *)
Theorem run_call_order
    (reset : bool) (environ : gmap str str) (env_file : option str) (s : run_state) :
  ∃ made,
    rs_calls (run lower int store_raises store_response reset environ env_file s).1
      = rs_calls s ++ made ∧
    (reset = false → ClientReset ∉ made) ∧
    (reset = true → ∀ j batch,
       made !! j = Some (CollectionUpsert batch) →
       ∃ i, (i < j)%nat ∧ made !! i = Some ClientReset) ∧
    (∀ j query_texts n_results,
       made !! j = Some (CollectionQuery query_texts n_results) →
       ∃ i, (i < j)%nat ∧ made !! i = Some (CollectionUpsert ensure_documents)).
Proof.
  destruct (follows_run reset environ env_file) as (host & port & _ & Hrun).
  destruct (Hrun s) as (made & Hcalls & Hpre & _).
  exists made. split; [done|].
  assert (∀ j c, made !! j = Some c → planned_calls reset host port !! j = Some c)
    as Hplan by (intros j c Hj; by apply (prefix_lookup_Some made)).
  assert (∀ i j c c', (i < j)%nat → made !! j = Some c' →
                      planned_calls reset host port !! i = Some c →
                      made !! i = Some c) as Hbefore.
  { intros i j c c' Hij Hj Hi. rewrite <- Hi. apply prefix_lookup_lt; [|done].
    apply lookup_lt_Some in Hj. lia. }
  split; [|split].
  - intros -> Hin. apply list_elem_of_lookup in Hin as [j Hj].
    apply Hplan in Hj.
    do 6 (destruct j as [|j]; [done|]). done.
  - intros -> j batch Hj. pose proof (Hplan _ _ Hj) as Hp.
    destruct j as [|[|[|[|j]]]]; [done..| |].
    + exists 1%nat. split; [lia|].
      apply (Hbefore 1%nat 3%nat ClientReset _ ltac:(lia) Hj). reflexivity.
    + do 3 (destruct j as [|j]; [done|]). done.
  - intros j texts n Hj. pose proof (Hplan _ _ Hj) as Hp.
    destruct reset.
    + do 4 (destruct j as [|j]; [done|]).
      exists 3%nat. split; [lia|].
      apply (Hbefore 3%nat (S (S (S (S j)))) (CollectionUpsert ensure_documents) _
               ltac:(lia) Hj). reflexivity.
    + do 3 (destruct j as [|j]; [done|]).
      exists 2%nat. split; [lia|].
      apply (Hbefore 2%nat (S (S (S j))) (CollectionUpsert ensure_documents) _
               ltac:(lia) Hj). reflexivity.
Qed.
End RunProperties.

Section MainProperties.
Context (lower : str → str) (int : str → option Z).
Context (store_raises : list store_call → store_call → option str).
Context (store_response : list store_call → list str → Z → response).
Context (exn_message : exn → str).

End MainProperties.

Lemma run_follows_plan_witness :
  rs_calls (run lower_latin1 int_ascii store_quiet response_empty true ∅ None
              run_state0).1
  = planned_calls true (u "localhost") 8000.
Proof.
  destruct (run_follows_plan lower_latin1 int_ascii store_quiet response_empty
              true ∅ None run_state0)
    as (host & port & made & Hconfig & Hcalls & _ & Hdone).
  rewrite Hcalls. vm_compute in Hconfig. injection Hconfig as <- <-.
  rewrite Hdone; [vm_compute; reflexivity|].
  exists (). vm_compute. reflexivity.
Defined.



Lemma run_call_order_witness :
  ∃ made,
    rs_calls (run lower_latin1 int_ascii store_quiet response_empty false ∅ None
                run_state0).1 = rs_calls run_state0 ++ made ∧
    ClientReset ∉ made.
Proof.
  destruct (run_call_order lower_latin1 int_ascii store_quiet response_empty
              false ∅ None run_state0) as (made & Hcalls & Hno & _).
  exists made. split; [exact Hcalls|]. apply Hno. reflexivity.
Defined.


Example main_example :
  main lower_latin1 int_ascii store_reset_disabled response_empty
    (λ _, u "list index out of range") true
    {[ u "CHROMA_PORT" := u "80a" ]} None run_state0 =
  (RunState
     (World [ u "Puerto inválido en CHROMA_PORT: 80a. Usando 8000.";
              u "[cliente] --reset recibido. Limpiando datos remotos...";
              u "Error al ejecutar el cliente: Resetting is not allowed" ]
            (Response None None None))
     [ HttpClient (u "localhost") 8000 true false; ClientReset ], 1).
Proof. vm_compute. reflexivity. Qed.
